(** * Column comparison across dataframes

    A shallow embedding of [compare_dataframe_columns] from
    [code_for_work.py], and the properties its specification states.

    Conventions of the model.
    - A Python [str] is a [string]; each character of the [string] stands
      for one code point below 256.  Python orders strings by code point,
      which on this range is [String.le].
    - A [set] of strings is a [gset string]; the dictionary [column_sets]
      is only ever read by key, so it is a [gmap]; the dictionary
      [unique_columns] is iterated and returned, so it is an association
      list kept in insertion order.
    - The function both raises and prints: it runs in a small monad that
      threads the text written to standard output and stops at the first
      exception. *)

From Stdlib Require Import Ascii.
From stdpp Require Import base decidable option list sorting gmap strings pretty.

(** ** Exceptions and standard output *)

Inductive exn : Type :=
  | ValueError (msg : string)
  | KeyError (key : string).

Inductive result (A : Type) : Type :=
  | Ok (a : A)
  | Raise (e : exn).

Arguments Ok {A} a.
Arguments Raise {A} e.

(** A computation receives the text already written to standard output and
    yields its outcome together with the text written so far. *)
Definition M (A : Type) : Type := string → result A * string.

Global Instance M_ret : MRet M := λ A (a : A) out, (Ok a, out).

Global Instance M_bind : MBind M := λ A B (k : A → M B) (m : M A) out,
  match m out with
  | (Ok a, out') => k a out'
  | (Raise e, out') => (Raise e, out')
  end.

Definition raise {A} (e : exn) : M A := λ out, (Raise e, out).

Definition newline : string := String "010"%char EmptyString.

(** [print(s)] writes [s] and a newline. *)
Definition print (s : string) : M () := λ out, (Ok (), out +:+ s +:+ newline).

(** A [for] loop over a list, with the loop-carried variables as state. *)
Fixpoint for_loop {A S} (l : list A) (s : S) (body : S → A → M S) : M S :=
  match l with
  | [] => mret s
  | a :: l' => s' ← body s a; for_loop l' s' body
  end.

(** Running a call from an empty standard output. *)
Definition run {A} (m : M A) : result A * string := m EmptyString.

(** ** Python built-ins used by the function *)

(** [enumerate(l)] *)
Definition enumerate {A} (l : list A) : list (nat * A) :=
  zip (seq 0 (length l)) l.

(** [s * n] on a string *)
Fixpoint str_mul (s : string) (n : nat) : string :=
  match n with
  | 0 => EmptyString
  | S n' => s +:+ str_mul s n'
  end.

(** [sorted(l)] on a list of strings *)
Definition sorted (l : list string) : list string := merge_sort String.le l.

(** [d[k]] on a dictionary read by key: a missing key raises [KeyError]. *)
Definition getitem {V} (d : gmap string V) (k : string) : M V :=
  match d !! k with
  | Some v => mret v
  | None => raise (KeyError k)
  end.

(** A dictionary in insertion order.  [d[k] = v] replaces the value of a
    key already present, which keeps its position, and appends a new key. *)
Abbreviation dict V := (list (string * V)).

Fixpoint dict_set {V} (d : dict V) (k : string) (v : V) : dict V :=
  match d with
  | [] => [(k, v)]
  | (k', v') :: d' =>
      if decide (k' = k) then (k', v) :: d' else (k', v') :: dict_set d' k v
  end.

Fixpoint dict_get {V} (d : dict V) (k : string) : option V :=
  match d with
  | [] => None
  | (k', v') :: d' => if decide (k' = k) then Some v' else dict_get d' k
  end.

Definition keys {V} (d : dict V) : list string := d.*1.

(** *** [repr] of a string and [str] of a list of strings *)

Definition hex_digit (n : N) : ascii :=
  match n with
  | 0%N => "0" | 1%N => "1" | 2%N => "2" | 3%N => "3" | 4%N => "4"
  | 5%N => "5" | 6%N => "6" | 7%N => "7" | 8%N => "8" | 9%N => "9"
  | 10%N => "a" | 11%N => "b" | 12%N => "c" | 13%N => "d" | 14%N => "e"
  | _ => "f"
  end%char.

Definition backslash : ascii := "092"%char.
Definition single_quote : ascii := "039"%char.
Definition double_quote : ascii := "034"%char.

(** The escape of a code point below 256: a backslash, [x] and two
    lower-case hexadecimal digits. *)
Definition hex_escape (n : N) : string :=
  String backslash
    (String "x"%char (String (hex_digit (n / 16)) (String (hex_digit (n mod 16)) EmptyString))).

(** Code points below 256 that [repr] escapes numerically: the control
    characters, the no-break space and the soft hyphen. *)
Definition unprintable (n : N) : bool :=
  ((n <? 32) || ((127 <=? n) && (n <=? 160)) || (n =? 173))%N.

Fixpoint str_contains (c : ascii) (s : string) : bool :=
  match s with
  | EmptyString => false
  | String c' s' => if decide (c' = c) then true else str_contains c s'
  end.

(** The quote [repr] encloses a string in: a double quote exactly when the
    string has a single quote and no double quote. *)
Definition repr_quote (s : string) : ascii :=
  if str_contains single_quote s && negb (str_contains double_quote s)
  then double_quote else single_quote.

Definition repr_char (quote c : ascii) : string :=
  let n := Ascii.N_of_ascii c in
  if decide (c = quote) then String backslash (String c EmptyString)
  else if decide (c = backslash) then String backslash (String c EmptyString)
  else if (n =? 9)%N then String backslash "t"
  else if (n =? 10)%N then String backslash "n"
  else if (n =? 13)%N then String backslash "r"
  else if unprintable n then hex_escape n
  else String c EmptyString.

Fixpoint repr_body (quote : ascii) (s : string) : string :=
  match s with
  | EmptyString => EmptyString
  | String c s' => repr_char quote c +:+ repr_body quote s'
  end.

Definition repr_str (s : string) : string :=
  let q := repr_quote s in
  String q (repr_body q s +:+ String q EmptyString).

Fixpoint join (sep : string) (l : list string) : string :=
  match l with
  | [] => EmptyString
  | [s] => s
  | s :: l' => s +:+ sep +:+ join sep l'
  end.

(** [str(l)], which is what an f-string field writes for a list. *)
Definition str_list (l : list string) : string :=
  "[" +:+ join ", " (repr_str <$> l) +:+ "]".

(** ** The function *)

(** The only part of a dataframe the function reads is [df.columns]. *)
Record DataFrame : Type := { columns : list string }.

(** [[f"df{i+1}" for i in range(n)]] *)
Definition default_names (n : nat) : list string :=
  (λ i, "df" +:+ pretty (i + 1)) <$> seq 0 n.

(** [{name: set(df.columns) for name, df in zip(names, dataframes)}] *)
Definition build_column_sets (names : list string) (dataframes : list DataFrame)
    : gmap string (gset string) :=
  foldl (λ m '(name, df), <[name := list_to_set (columns df)]> m) ∅
        (zip names dataframes).

Definition banner : string := str_mul "=" 60.

Definition report_line (df_name : string) (unique_cols : list string) : string :=
  match unique_cols with
  | _ :: _ =>
      df_name +:+ " has " +:+ str_list unique_cols
        +:+ " which are not present in other dataframes"
  | [] => df_name +:+ " has no unique columns"
  end.

Definition print_report (unique_columns : dict (list string)) : M () :=
  print banner;;
  print "DATAFRAME COLUMN COMPARISON RESULTS";;
  print banner;;
  print EmptyString;;
  for_loop unique_columns ()
    (λ _ '(df_name, unique_cols), print (report_line df_name unique_cols));;
  print banner.

Definition compare_dataframe_columns
    (dataframes : list DataFrame) (names : option (list string))
    (print_results : bool) : M (dict (list string)) :=
  if decide (length dataframes < 2) then
    raise (ValueError "Please provide at least 2 dataframes to compare")
  else
    names ← match names with
            | None => mret (default_names (length dataframes))
            | Some names =>
                if decide (length names ≠ length dataframes) then
                  raise (ValueError
                    ("Number of names (" +:+ pretty (length names)
                       +:+ ") must match number of dataframes ("
                       +:+ pretty (length dataframes) +:+ ")"))
                else mret names
            end;
    let column_sets := build_column_sets names dataframes in
    unique_columns ←
      for_loop (enumerate (zip names dataframes)) []
        (λ unique_columns '(i, (name, df)),
           current_cols ← getitem column_sets name;
           other_cols ←
             for_loop (enumerate names) (∅ : gset string)
               (λ other_cols '(j, other_name),
                  if decide (i ≠ j) then
                    cols ← getitem column_sets other_name;
                    mret (other_cols ∪ cols)
                  else mret other_cols);
           let unique := sorted (elements (current_cols ∖ other_cols)) in
           mret (dict_set unique_columns name unique));
    (if print_results then print_report unique_columns else mret ());;
    mret unique_columns.


(** ** Vocabulary of the statements *)

(** The text of a sequence of printed lines. *)
Fixpoint unlines (l : list string) : string :=
  match l with
  | [] => EmptyString
  | s :: l' => s +:+ newline +:+ unlines l'
  end.

(** The dictionary a sequence of assignments [d[k] = v] builds. *)
Definition dict_of_assignments {V} (d : dict V) (l : list (string * V)) : dict V :=
  foldl (λ d '(k, v), dict_set d k v) d l.

(** The keys of a sequence in order of first occurrence. *)
Definition first_occurrences (acc l : list string) : list string :=
  foldl (λ acc k, if decide (k ∈ acc) then acc else acc ++ [k]) acc l.

(** One step of the comprehension that builds [column_sets], and one turn
    of the inner loop at position [i] when no key is missing. *)
Definition insert_column_set (m : gmap string (gset string))
    (p : string * DataFrame) : gmap string (gset string) :=
  let '(name, df) := p in <[name := list_to_set (columns df)]> m.

Definition update_other_cols (cs : gmap string (gset string)) (i : nat)
    (other_cols : gset string) (p : nat * string) : gset string :=
  let '(j, other_name) := p in
  if decide (i ≠ j) then other_cols ∪ cs !!! other_name else other_cols.

(** The set the inner loop leaves in [other_cols] at position [i], and the
    list the outer loop then assigns under [name], for a dictionary
    [column_sets] that has every name. *)
Definition other_cols_at (column_sets : gmap string (gset string))
    (names : list string) (i : nat) : gset string :=
  foldl (λ other_cols '(j, other_name),
           if decide (i ≠ j) then other_cols ∪ column_sets !!! other_name
           else other_cols)
        ∅ (enumerate names).

Definition unique_at (column_sets : gmap string (gset string))
    (names : list string) (i : nat) (name : string) : list string :=
  sorted (elements (column_sets !!! name ∖ other_cols_at column_sets names i)).

(** The assignments [unique_columns[name] = unique] of the outer loop, in
    the order it makes them. *)
Definition assignments (names : list string) (dataframes : list DataFrame)
    : list (string * list string) :=
  (λ '(i, (name, _)), (name, unique_at (build_column_sets names dataframes) names i name))
    <$> enumerate (zip names dataframes).

Definition unique_columns_of (names : list string) (dataframes : list DataFrame)
    : dict (list string) :=
  dict_of_assignments [] (assignments names dataframes).

(** The effective names of a call. *)
Definition effective_names (dataframes : list DataFrame)
    (names : option (list string)) : list string :=
  match names with
  | None => default_names (length dataframes)
  | Some names => names
  end.

(** A call passes the two checks of the function. *)
Definition valid_call (dataframes : list DataFrame)
    (names : option (list string)) : Prop :=
  2 ≤ length dataframes ∧
  match names with
  | None => True
  | Some names => length names = length dataframes
  end.

Global Instance valid_call_dec dataframes names : Decision (valid_call dataframes names).
Proof. unfold valid_call. destruct names; apply _. Defined.

(** The lines of the report for a result. *)
Definition report_lines (unique_columns : dict (list string)) : list string :=
  [banner; "DATAFRAME COLUMN COMPARISON RESULTS"; banner; EmptyString]
    ++ ((λ '(df_name, unique_cols), report_line df_name unique_cols) <$> unique_columns)
    ++ [banner].

(** The names of a call are distinct: explicit names without repetition,
    or synthesized names. *)
Definition distinct_names (names : option (list string)) : Prop :=
  match names with
  | None => True
  | Some names => NoDup names
  end.

(** [name] stands at two positions of [names]. *)
Definition repeated (names : list string) (name : string) : Prop :=
  ∃ i j, i ≠ j ∧ names !! i = Some name ∧ names !! j = Some name.

(** [i] is the last position of [name] in [names]. *)
Definition last_position (names : list string) (name : string) (i : nat) : Prop :=
  names !! i = Some name ∧ ∀ j, i < j → names !! j ≠ Some name.

(** Following the specification's words, not the code: the unique-column
    list of dataset [i] is the ascending list of the column names that
    occur in dataset [i] and in no other dataset. *)
Definition spec_unique_columns (dataframes : list DataFrame) (i : nat) : list string :=
  match dataframes !! i with
  | None => []
  | Some df =>
      let others : list (gset string) :=
        (λ p : nat * DataFrame, list_to_set (columns p.2))
          <$> filter (λ p : nat * DataFrame, p.1 ≠ i) (enumerate dataframes) in
      sorted (elements (list_to_set (columns df) ∖ ⋃ others))
  end.

(** The reading of the specification under which the entry of a repeated
    name is the unique-column list of the last dataset supplied under it. *)
Definition last_writer_claim (dataframes : list DataFrame) (names : list string)
    (print_results : bool) : Prop :=
  ∃ res out,
    run (compare_dataframe_columns dataframes (Some names) print_results) = (Ok res, out) ∧
    ∀ name i, repeated names name → last_position names name i →
      dict_get res name = Some (spec_unique_columns dataframes i).

(** Strictly ascending order on strings. *)
Definition str_lt (s1 s2 : string) : Prop := String.ltb s1 s2.

(** ** Scenarios of the specification *)

Definition df_of (cols : list string) : DataFrame := {| columns := cols |}.

Definition scenario_dfs : list DataFrame :=
  [df_of ["A"; "B"; "C"]; df_of ["A"; "D"]; df_of ["A"; "B"; "E"]].

Definition scenario_names : list string := ["Sales"; "Marketing"; "HR"].

(** ** Reasoning about computations *)

Lemma str_app_assoc (s1 s2 s3 : string) : (s1 +:+ s2) +:+ s3 = s1 +:+ s2 +:+ s3.
Proof.
  induction s1 as [|c s1 IH]; [done|].
  change (String c ((s1 +:+ s2) +:+ s3) = String c (s1 +:+ s2 +:+ s3)).
  by rewrite IH.
Qed.

Lemma str_app_nil_r (s : string) : s +:+ EmptyString = s.
Proof.
  induction s as [|c s IH]; [done|].
  change (String c (s +:+ EmptyString) = String c s). by rewrite IH.
Qed.

Lemma bind_ok {A B} (m : M A) (k : A → M B) a out out' :
  m out = (Ok a, out') → (m ≫= k) out = k a out'.
Proof. intros Hm. unfold mbind, M_bind. by rewrite Hm. Qed.

Lemma bind_raise {A B} (m : M A) (k : A → M B) e out out' :
  m out = (Raise e, out') → (m ≫= k) out = (Raise e, out').
Proof. intros Hm. unfold mbind, M_bind. by rewrite Hm. Qed.

Lemma getitem_Some {V} (d : gmap string V) k v out :
  d !! k = Some v → getitem d k out = (Ok v, out).
Proof. intros Hk. unfold getitem. by rewrite Hk. Qed.

(** A loop whose body neither raises nor prints on the elements it meets
    is a left fold of its state. *)
Lemma for_loop_pure {A S} (f : S → A → S) (body : S → A → M S) l s out :
  (∀ s a out, a ∈ l → body s a out = (Ok (f s a), out)) →
  for_loop l s body out = (Ok (foldl f s l), out).
Proof.
  revert s. induction l as [|a l IH]; intros s Hbody; simpl; [done|].
  erewrite bind_ok; [|apply Hbody; left].
  apply IH. intros s' a' out' Ha'. apply Hbody. by right.
Qed.

Lemma unlines_app l1 l2 : unlines (l1 ++ l2) = unlines l1 +:+ unlines l2.
Proof.
  induction l1 as [|s l1 IH]; simpl; [done|].
  by rewrite IH, !str_app_assoc.
Qed.

Lemma for_loop_print {A} (line : A → string) (body : () → A → M ()) (l : list A) out :
  (∀ u a out, body u a out = print (line a) out) →
  for_loop l () body out = (Ok (), out +:+ unlines (line <$> l)).
Proof.
  intros Hbody. revert out. induction l as [|a l IH]; intros out; simpl.
  - by rewrite str_app_nil_r.
  - unfold mbind, M_bind. rewrite Hbody. unfold print at 1. rewrite IH.
    by rewrite !str_app_assoc.
Qed.

(** ** Dictionaries in insertion order *)

Section dict.
Context {V : Type}.
Implicit Types (d : dict V) (k : string) (v : V).

(** The keys [d[k] = v] leaves behind. *)
Lemma keys_dict_set d k v :
  keys (dict_set d k v) = if decide (k ∈ keys d) then keys d else keys d ++ [k].
Proof.
  unfold keys. induction d as [|[k' v'] d IH]; csimpl; [done|].
  destruct (decide (k' = k)) as [->|Hne]; csimpl.
  - rewrite decide_True; [done|]. left.
  - rewrite IH. destruct (decide (k ∈ d.*1)) as [Hin|Hnin].
    + rewrite decide_True; [done|]. by right.
    + rewrite decide_False; [done|]. by intros [?|?]%elem_of_cons.
Qed.

Lemma dict_get_set_eq d k v : dict_get (dict_set d k v) k = Some v.
Proof.
  induction d as [|[k' v'] d IH]; csimpl.
  - by rewrite decide_True.
  - destruct (decide (k' = k)) as [->|Hne]; csimpl.
    + by rewrite decide_True.
    + by rewrite decide_False.
Qed.

Lemma dict_get_set_ne d k k' v :
  k ≠ k' → dict_get (dict_set d k v) k' = dict_get d k'.
Proof.
  intros Hne. induction d as [|[k0 v0] d IH]; csimpl.
  - by rewrite decide_False.
  - destruct (decide (k0 = k)) as [->|Hne0]; csimpl.
    + by rewrite !decide_False.
    + by rewrite IH.
Qed.

Lemma dict_set_fresh d k v : k ∉ keys d → dict_set d k v = d ++ [(k, v)].
Proof.
  unfold keys. induction d as [|[k' v'] d IH]; csimpl; [done|].
  intros Hnin. apply not_elem_of_cons in Hnin as [Hne Hnin].
  rewrite decide_False by done. by rewrite IH.
Qed.

(** The values a dictionary holds after [d[k] = v]. *)
Lemma elem_of_dict_set d k v k' v' :
  (k', v') ∈ dict_set d k v → (k' = k ∧ v' = v) ∨ (k', v') ∈ d.
Proof.
  induction d as [|[k0 v0] d IH]; csimpl.
  - intros [= -> ->]%list_elem_of_singleton. by left.
  - destruct (decide (k0 = k)) as [->|Hne]; rewrite !elem_of_cons.
    + intros [[= -> ->]|?]; auto.
    + intros [?|?]; auto. destruct IH as [?|?]; auto.
Qed.

Lemma dict_get_elem_of d k v : dict_get d k = Some v → (k, v) ∈ d.
Proof.
  induction d as [|[k0 v0] d IH]; csimpl; [done|].
  destruct (decide (k0 = k)) as [->|Hne].
  - intros [= ->]. left.
  - intros Hd. right. by apply IH.
Qed.

Lemma dict_get_is_Some d k : k ∈ keys d → is_Some (dict_get d k).
Proof.
  unfold keys. induction d as [|[k0 v0] d IH]; csimpl.
  - by intros ?%elem_of_nil.
  - intros Hin. destruct (decide (k0 = k)) as [->|Hne]; [by eexists|].
    apply IH. by apply elem_of_cons in Hin as [->|?].
Qed.

Lemma dict_get_lookup d i k v :
  NoDup (keys d) → d !! i = Some (k, v) → dict_get d k = Some v.
Proof.
  unfold keys. revert i. induction d as [|[k0 v0] d IH]; intros i Hnd Hi; [done|].
  csimpl in *. apply NoDup_cons in Hnd as [Hk0 Hnd].
  destruct i as [|i]; csimpl in Hi.
  - injection Hi as -> ->. by rewrite decide_True.
  - destruct (decide (k0 = k)) as [->|Hne]; [|by eapply IH].
    exfalso. apply Hk0. apply list_elem_of_fmap. exists (k, v). split; [done|].
    by eapply list_elem_of_lookup_2.
Qed.
End dict.


(** ** Dictionaries built by a run of assignments *)

Section assignments.
Context {V : Type}.
Implicit Types (d : dict V) (l : list (string * V)) (k : string) (v : V).

Lemma dict_of_assignments_cons d k v l :
  dict_of_assignments d ((k, v) :: l) = dict_of_assignments (dict_set d k v) l.
Proof. done. Qed.

Lemma dict_of_assignments_app d l1 l2 :
  dict_of_assignments d (l1 ++ l2) = dict_of_assignments (dict_of_assignments d l1) l2.
Proof. apply foldl_app. Qed.

Lemma keys_dict_of_assignments d l :
  keys (dict_of_assignments d l) = first_occurrences (keys d) l.*1.
Proof.
  revert d. induction l as [|[k v] l IH]; intros d; [done|].
  rewrite dict_of_assignments_cons, IH, keys_dict_set. done.
Qed.

(** Distinct fresh keys are appended in order. *)
Lemma dict_of_assignments_NoDup d l :
  NoDup (keys d ++ l.*1) → dict_of_assignments d l = d ++ l.
Proof.
  revert d. induction l as [|[k v] l IH]; intros d Hnd.
  - unfold dict_of_assignments. simpl. by rewrite app_nil_r.
  - rewrite dict_of_assignments_cons. rewrite fmap_cons in Hnd. simpl in Hnd.
    assert (k ∉ keys d) as Hk.
    { apply NoDup_app in Hnd as (_ & Hdis & _). intros Hin.
      apply (Hdis k Hin). left. }
    rewrite (dict_set_fresh d k v Hk), IH, <-app_assoc; [done|].
    unfold keys in *. by rewrite fmap_app, <-app_assoc.
Qed.

Lemma elem_of_dict_of_assignments d l k v :
  (k, v) ∈ dict_of_assignments d l → (k, v) ∈ d ∨ (k, v) ∈ l.
Proof.
  revert d. induction l as [|[k' v'] l IH]; intros d; [by left|].
  rewrite dict_of_assignments_cons. intros [Hin|Hin]%IH.
  - apply elem_of_dict_set in Hin as [[-> ->]|Hin]; [right; left|by left].
  - right. by right.
Qed.

Lemma dict_get_assignments_notin d l k :
  k ∉ l.*1 → dict_get (dict_of_assignments d l) k = dict_get d k.
Proof.
  revert d. induction l as [|[k' v'] l IH]; intros d Hnin; [done|].
  rewrite fmap_cons in Hnin. apply not_elem_of_cons in Hnin as [Hne Hnin].
  rewrite dict_of_assignments_cons, IH by done. by apply dict_get_set_ne.
Qed.

(** Last writer wins. *)
Lemma dict_get_assignments_last d l1 l2 k v :
  k ∉ l2.*1 → dict_get (dict_of_assignments d (l1 ++ (k, v) :: l2)) k = Some v.
Proof.
  intros Hnin. rewrite dict_of_assignments_app, dict_of_assignments_cons.
  rewrite dict_get_assignments_notin by done. apply dict_get_set_eq.
Qed.
End assignments.

Lemma first_occurrences_NoDup acc l : NoDup acc → NoDup (first_occurrences acc l).
Proof.
  revert acc. induction l as [|k l IH]; intros acc Hnd; [done|].
  unfold first_occurrences. simpl. apply IH.
  destruct (decide (k ∈ acc)); [done|].
  apply NoDup_app. split_and!; [done| |apply NoDup_singleton].
  intros x Hx ->%list_elem_of_singleton. done.
Qed.

Lemma elem_of_first_occurrences acc l k :
  k ∈ first_occurrences acc l ↔ k ∈ acc ∨ k ∈ l.
Proof.
  revert acc. induction l as [|k' l IH]; intros acc.
  - simpl. rewrite elem_of_nil. tauto.
  - unfold first_occurrences in *. simpl. rewrite IH, elem_of_cons.
    destruct (decide (k' ∈ acc)) as [Hin|Hnin].
    + split; [tauto|]. intros [?|[->|?]]; tauto.
    + rewrite elem_of_app, list_elem_of_singleton. tauto.
Qed.

(** ** The dictionary of column sets *)

Section column_sets.
Implicit Types (names : list string) (dataframes : list DataFrame).
Implicit Types (m : gmap string (gset string)).

Lemma foldl_ins_notin m (l : list (string * DataFrame)) name :
  name ∉ l.*1 → foldl insert_column_set m l !! name = m !! name.
Proof.
  revert m. induction l as [|[k df] l IH]; intros m Hnin; csimpl in *; [done|].
  apply not_elem_of_cons in Hnin as [Hne Hnin].
  rewrite IH by done. by rewrite lookup_insert_ne.
Qed.

(** Last writer wins: the set kept under a name is that of the last
    dataframe zipped with it. *)
Lemma foldl_ins_last m (l1 l2 : list (string * DataFrame)) name df :
  name ∉ l2.*1 →
  foldl insert_column_set m (l1 ++ (name, df) :: l2) !! name = Some (list_to_set (columns df)).
Proof.
  intros Hnin. rewrite foldl_app. csimpl.
  rewrite foldl_ins_notin by done. by rewrite lookup_insert_eq.
Qed.

Lemma foldl_ins_is_Some m (l : list (string * DataFrame)) name :
  name ∈ l.*1 → is_Some (foldl insert_column_set m l !! name).
Proof.
  revert m. induction l as [|[k df] l IH]; intros m Hin; csimpl in *.
  - by apply elem_of_nil in Hin.
  - destruct (decide (name ∈ l.*1)) as [Hl|Hl]; [by apply IH|].
    apply elem_of_cons in Hin as [->|?]; [|done].
    rewrite foldl_ins_notin by done. rewrite lookup_insert_eq. by eexists.
Qed.

Lemma build_column_sets_is_Some names dataframes name :
  length names ≤ length dataframes → name ∈ names →
  is_Some (build_column_sets names dataframes !! name).
Proof.
  intros Hlen Hin. apply foldl_ins_is_Some.
  by rewrite fst_zip.
Qed.

Lemma build_column_sets_last names dataframes i name df :
  names !! i = Some name → dataframes !! i = Some df →
  (∀ j, i < j → names !! j ≠ Some name) →
  build_column_sets names dataframes !! name = Some (list_to_set (columns df)).
Proof.
  intros Hn Hd Hlast. unfold build_column_sets.
  rewrite <-(take_drop_middle names i name), <-(take_drop_middle dataframes i df) by done.
  rewrite zip_with_app by (rewrite !length_take; apply lookup_lt_Some in Hn, Hd; lia).
  csimpl. apply foldl_ins_last.
  intros Hin. apply list_elem_of_fmap in Hin as [[k df'] [-> Hin]].
  apply list_elem_of_lookup in Hin as [j Hj].
  apply lookup_zip_with_Some in Hj as (k' & df'' & [= <- <-] & Hk & _).
  rewrite lookup_drop in Hk. by apply (Hlast (S i + j)); [lia|].
Qed.

Lemma build_column_sets_NoDup names dataframes i name df :
  NoDup names → names !! i = Some name → dataframes !! i = Some df →
  build_column_sets names dataframes !! name = Some (list_to_set (columns df)).
Proof.
  intros Hnd Hn Hd. eapply build_column_sets_last; [done..|].
  intros j Hij Hj. assert (i = j) by (by eapply NoDup_lookup). lia.
Qed.
End column_sets.

(** ** What one pass of the loops computes *)

Lemma elem_of_enumerate {A} (l : list A) j x :
  (j, x) ∈ enumerate l ↔ l !! j = Some x.
Proof.
  unfold enumerate. rewrite list_elem_of_lookup. split.
  - intros [k Hk]. apply lookup_zip_with_Some in Hk as (j' & x' & [= <- <-] & Hj & Hx).
    apply lookup_seq in Hj as [-> _]. done.
  - intros Hx. exists j. apply lookup_zip_with_Some. exists j, x.
    split_and!; [done| |done]. apply lookup_seq. split; [done|].
    by eapply lookup_lt_Some.
Qed.

Lemma lookup_enumerate {A} (l : list A) j :
  enumerate l !! j = (λ x, (j, x)) <$> l !! j.
Proof.
  unfold enumerate. rewrite lookup_zip_with.
  destruct (l !! j) as [x|] eqn:Hx; simpl.
  - rewrite lookup_seq_lt by (by eapply lookup_lt_Some). done.
  - by destruct (seq 0 (length l) !! j).
Qed.

Lemma length_enumerate {A} (l : list A) : length (enumerate l) = length l.
Proof. unfold enumerate. rewrite length_zip_with, length_seq. lia. Qed.

Section passes.
Context (cs : gmap string (gset string)).
Implicit Types (names : list string) (c name : string).

Lemma elem_of_foldl_step i (l : list (nat * string)) (acc : gset string) c :
  c ∈ foldl (update_other_cols cs i) acc l ↔
  c ∈ acc ∨ ∃ j name, (j, name) ∈ l ∧ j ≠ i ∧ c ∈ cs !!! name.
Proof.
  revert acc. induction l as [|[j name] l IH]; intros acc; simpl.
  - split; [by left|]. intros [?|(j & name & Hin & _)]; [done|].
    by apply elem_of_nil in Hin.
  - rewrite IH. split.
    + intros [Hacc|(j' & name' & Hin & Hne & Hc)].
      * destruct (decide (i ≠ j)) as [Hij|Hij]; [|by left].
        apply elem_of_union in Hacc as [?|?]; [by left|].
        right. exists j, name. split_and!; [left|done|done].
      * right. exists j', name'. split_and!; [by right|done|done].
    + intros [Hacc|(j' & name' & Hin & Hne & Hc)].
      * left. destruct (decide (i ≠ j)); [|done]. apply elem_of_union. by left.
      * apply elem_of_cons in Hin as [[= -> ->]|Hin].
        -- left. rewrite decide_True by done. apply elem_of_union. by right.
        -- right. by exists j', name'.
Qed.

(** [other_cols] collects the sets kept under the names at the other
    positions. *)
Lemma elem_of_other_cols_at names i c :
  c ∈ other_cols_at cs names i ↔
  ∃ j name, names !! j = Some name ∧ j ≠ i ∧ c ∈ cs !!! name.
Proof.
  unfold other_cols_at. split.
  - intros H. apply (elem_of_foldl_step i) in H.
    destruct H as [Hc|(j & name & Hin & Hne & Hc)]; [by apply elem_of_empty in Hc|].
    exists j, name. by rewrite <-elem_of_enumerate.
  - intros (j & name & Hin & Hne & Hc). apply (elem_of_foldl_step i). right.
    exists j, name. by rewrite elem_of_enumerate.
Qed.

Lemma elem_of_unique_at names i name c :
  c ∈ unique_at cs names i name ↔
  c ∈ cs !!! name ∧ c ∉ other_cols_at cs names i.
Proof.
  unfold unique_at, sorted.
  rewrite merge_sort_Permutation, elem_of_elements. apply elem_of_difference.
Qed.

(** A name that also stands at another position gets the empty list:
    the set kept under it is among the other sets. *)
Lemma unique_at_repeated names i j name :
  names !! j = Some name → j ≠ i → unique_at cs names i name = [].
Proof.
  intros Hj Hne. apply elem_of_nil_inv. intros c Hc.
  apply elem_of_unique_at in Hc as [Hc Hnot]. apply Hnot.
  apply elem_of_other_cols_at. by exists j, name.
Qed.
End passes.

(** ** Sorting *)

Lemma str_le_ne_lt (s1 s2 : string) : String.le s1 s2 → s1 ≠ s2 → str_lt s1 s2.
Proof.
  unfold String.le, str_lt, String.leb, String.ltb.
  destruct (String.compare s1 s2) eqn:Hcmp; [|done..].
  intros _ Hne. by apply String.compare_eq_iff in Hcmp.
Qed.

Lemma sorted_Permutation l : sorted l ≡ₚ l.
Proof. apply merge_sort_Permutation. Qed.

Lemma sorted_strictly_ascending l : NoDup l → StronglySorted str_lt (sorted l).
Proof.
  intros Hnd.
  assert (NoDup (sorted l)) as Hnd' by (by rewrite sorted_Permutation).
  assert (StronglySorted String.le (sorted l)) as Hs
    by (apply StronglySorted_merge_sort; apply _).
  induction Hs as [|x k Hs IH Hall]; [constructor|].
  apply NoDup_cons in Hnd' as [Hx Hk]. constructor; [by apply IH|].
  apply Forall_forall. intros y Hy.
  apply str_le_ne_lt; [by eapply Forall_forall in Hall|]. by intros ->.
Qed.

Lemma unique_at_strictly_ascending cs names i name :
  StronglySorted str_lt (unique_at cs names i name).
Proof. apply sorted_strictly_ascending, NoDup_elements. Qed.

Lemma unique_at_NoDup cs names i name : NoDup (unique_at cs names i name).
Proof. unfold unique_at. rewrite sorted_Permutation. apply NoDup_elements. Qed.

(** ** Running the function *)

Lemma print_report_run (unique_columns : dict (list string)) out :
  print_report unique_columns out = (Ok (), out +:+ unlines (report_lines unique_columns)).
Proof.
  unfold print_report, report_lines, mbind, M_bind, print at 1 2 3 4.
  rewrite (for_loop_print (λ '(df_name, unique_cols), report_line df_name unique_cols))
    by (by intros u [df_name unique_cols] out').
  unfold print. f_equal.
  rewrite (unlines_app [_; _; _; _]), unlines_app. simpl unlines.
  by rewrite !str_app_assoc.
Qed.

Lemma foldl_assignments (cs : gmap string (gset string)) names
    (l : list (nat * (string * DataFrame))) (d : dict (list string)) :
  foldl (λ d '(i, (name, _)), dict_set d name (unique_at cs names i name)) d l
  = dict_of_assignments d
      ((λ '(i, (name, _)), (name, unique_at cs names i name)) <$> l).
Proof.
  unfold dict_of_assignments. revert d.
  induction l as [|[i [name df]] l IH]; intros d; csimpl; [done|]. apply IH.
Qed.

Lemma inner_loop_run (cs : gmap string (gset string)) names i out :
  (∀ name, name ∈ names → is_Some (cs !! name)) →
  for_loop (enumerate names) (∅ : gset string)
    (λ other_cols '(j, other_name),
       if decide (i ≠ j) then
         cols ← getitem cs other_name;
         mret (other_cols ∪ cols)
       else mret other_cols) out
  = (Ok (other_cols_at cs names i), out).
Proof.
  intros Hcs. unfold other_cols_at. apply for_loop_pure.
  intros acc [j other_name] out' Hin. apply elem_of_enumerate in Hin.
  destruct (decide (i ≠ j)); [|done].
  destruct (Hcs other_name) as [cols Hcols]; [by eapply list_elem_of_lookup_2|].
  erewrite bind_ok by (by apply getitem_Some).
  by rewrite (lookup_total_correct _ _ _ Hcols).
Qed.

Lemma outer_loop_run names dataframes out :
  length names ≤ length dataframes →
  for_loop (enumerate (zip names dataframes)) []
    (λ unique_columns '(i, (name, df)),
       current_cols ← getitem (build_column_sets names dataframes) name;
       other_cols ←
         for_loop (enumerate names) (∅ : gset string)
           (λ other_cols '(j, other_name),
              if decide (i ≠ j) then
                cols ← getitem (build_column_sets names dataframes) other_name;
                mret (other_cols ∪ cols)
              else mret other_cols);
       let unique := sorted (elements (current_cols ∖ other_cols)) in
       mret (dict_set unique_columns name unique)) out
  = (Ok (unique_columns_of names dataframes), out).
Proof.
  intros Hlen. unfold unique_columns_of, assignments.
  rewrite <-foldl_assignments. apply for_loop_pure.
  intros d [i [name df]] out' Hin. apply elem_of_enumerate in Hin.
  apply lookup_zip_with_Some in Hin as (name' & df' & [= <- <-] & Hn & Hd).
  destruct (build_column_sets_is_Some names dataframes name) as [cols Hcols];
    [done|by eapply list_elem_of_lookup_2|].
  cbv beta iota. erewrite bind_ok by (by apply getitem_Some).
  erewrite bind_ok
    by (apply inner_loop_run; intros; by apply build_column_sets_is_Some).
  unfold unique_at. by rewrite (lookup_total_correct _ _ _ Hcols).
Qed.

(** A call that passes the two checks returns the dictionary built by the
    assignments of the loop, and prints the report when asked to. *)
Lemma compare_valid dataframes names print_results out :
  valid_call dataframes names →
  compare_dataframe_columns dataframes names print_results out =
    (Ok (unique_columns_of (effective_names dataframes names) dataframes),
     if print_results
     then out +:+ unlines (report_lines
                   (unique_columns_of (effective_names dataframes names) dataframes))
     else out).
Proof.
  intros [Hlen Hnames]. unfold compare_dataframe_columns.
  rewrite decide_False by lia.
  assert (length (effective_names dataframes names) ≤ length dataframes) as Hle.
  { destruct names as [ns|]; simpl; [lia|].
    unfold default_names. by rewrite length_fmap, length_seq. }
  assert (∀ {B} (k : list string → M B),
    ((match names with
      | None => mret (default_names (length dataframes))
      | Some names =>
          if decide (length names ≠ length dataframes) then
            raise (ValueError
              ("Number of names (" +:+ pretty (length names)
                 +:+ ") must match number of dataframes ("
                 +:+ pretty (length dataframes) +:+ ")"))
          else mret names
      end) ≫= k) out = k (effective_names dataframes names) out) as ->.
  { intros B k. destruct names as [ns|]; simpl; [|done].
    by rewrite decide_False by lia. }
  unfold mbind at 1, M_bind at 1. rewrite outer_loop_run by done.
  destruct print_results.
  - unfold mbind, M_bind. by rewrite print_report_run.
  - done.
Qed.

(** ** The assignments of a call *)

Lemma lookup_assignments names dataframes i name df :
  names !! i = Some name → dataframes !! i = Some df →
  assignments names dataframes !! i
  = Some (name, unique_at (build_column_sets names dataframes) names i name).
Proof.
  intros Hn Hd. unfold assignments.
  rewrite list_lookup_fmap, lookup_enumerate, lookup_zip_with, Hn, Hd. done.
Qed.

Lemma assignments_keys names dataframes :
  length names ≤ length dataframes → (assignments names dataframes).*1 = names.
Proof.
  intros Hlen. unfold assignments. apply list_eq. intros i.
  rewrite !list_lookup_fmap, lookup_enumerate, lookup_zip_with.
  destruct (names !! i) as [name|] eqn:Hn; simpl; [|done].
  destruct (dataframes !! i) as [df|] eqn:Hd; simpl; [done|].
  apply lookup_lt_Some in Hn. apply lookup_ge_None in Hd. lia.
Qed.

Lemma length_assignments names dataframes :
  length names = length dataframes →
  length (assignments names dataframes) = length dataframes.
Proof.
  intros Hlen. unfold assignments.
  rewrite length_fmap, length_enumerate, length_zip_with. lia.
Qed.

Lemma elem_of_assignments names dataframes name l :
  (name, l) ∈ assignments names dataframes →
  ∃ i, names !! i = Some name ∧
       l = unique_at (build_column_sets names dataframes) names i name.
Proof.
  unfold assignments. intros Hin.
  apply list_elem_of_fmap in Hin as ([i [name' df]] & [= -> ->] & Hin).
  apply elem_of_enumerate in Hin.
  apply lookup_zip_with_Some in Hin as (? & ? & [= <- <-] & Hn & _).
  by exists i.
Qed.

(** With distinct names no assignment overwrites another. *)
Lemma unique_columns_of_NoDup names dataframes :
  length names ≤ length dataframes → NoDup names →
  unique_columns_of names dataframes = assignments names dataframes.
Proof.
  intros Hlen Hnd. unfold unique_columns_of.
  rewrite dict_of_assignments_NoDup; [done|].
  simpl. by rewrite assignments_keys.
Qed.

(** ** The default names *)

Lemma default_names_length n : length (default_names n) = n.
Proof. unfold default_names. by rewrite length_fmap, length_seq. Qed.

Lemma default_names_lookup n i :
  i < n → default_names n !! i = Some ("df" +:+ pretty (i + 1)).
Proof.
  intros Hi. unfold default_names.
  by rewrite list_lookup_fmap, lookup_seq_lt.
Qed.

Lemma default_names_NoDup n : NoDup (default_names n).
Proof.
  unfold default_names. apply NoDup_fmap_2; [|apply NoDup_seq].
  intros i j Hij. apply (inj (String.app "df")) in Hij.
  apply (inj pretty) in Hij. lia.
Qed.

Lemma effective_names_length dataframes names :
  valid_call dataframes names →
  length (effective_names dataframes names) = length dataframes.
Proof.
  intros [_ Hn]. destruct names as [ns|]; simpl; [done|]. apply default_names_length.
Qed.

(** A call that fails one of the two checks raises before anything else,
    whatever was asked about the report. *)
Lemma compare_invalid dataframes names :
  ¬ valid_call dataframes names →
  ∃ e, ∀ print_results out,
    compare_dataframe_columns dataframes names print_results out = (Raise e, out).
Proof.
  intros Hinvalid. unfold compare_dataframe_columns.
  destruct (decide (length dataframes < 2)) as [Hlt|Hge]; [by eexists|].
  destruct names as [ns|].
  - destruct (decide (length ns ≠ length dataframes)) as [Hne|Heq]; [by eexists|].
    exfalso. apply Hinvalid. split; [lia|]. by apply dec_stable.
  - exfalso. apply Hinvalid. split; [lia|done].
Qed.

(** ** Calls with distinct names *)

Lemma effective_names_NoDup dataframes names :
  distinct_names names → NoDup (effective_names dataframes names).
Proof. destruct names as [ns|]; simpl; [done|]. intros _. apply default_names_NoDup. Qed.

(** With distinct names of matching length, the list assigned at position
    [i] holds the columns of dataset [i] that no other dataset has. *)
Lemma elem_of_unique_at_distinct names dataframes i name df c :
  length names = length dataframes → NoDup names →
  names !! i = Some name → dataframes !! i = Some df →
  c ∈ unique_at (build_column_sets names dataframes) names i name ↔
  c ∈ columns df ∧ ∀ j df', j ≠ i → dataframes !! j = Some df' → c ∉ columns df'.
Proof.
  intros Hlen Hnd Hn Hd. rewrite elem_of_unique_at, elem_of_other_cols_at.
  rewrite (lookup_total_correct _ _ _ (build_column_sets_NoDup _ _ _ _ _ Hnd Hn Hd)).
  rewrite elem_of_list_to_set. split.
  - intros [Hc Hothers]. split; [done|]. intros j df' Hne Hj Hc'. apply Hothers.
    destruct (names !! j) as [name'|] eqn:Hn'.
    + exists j, name'. split_and!; [done..|].
      rewrite (lookup_total_correct _ _ _ (build_column_sets_NoDup _ _ _ _ _ Hnd Hn' Hj)).
      by apply elem_of_list_to_set.
    + apply lookup_ge_None in Hn'. apply lookup_lt_Some in Hj. lia.
  - intros [Hc Hothers]. split; [done|]. intros (j & name' & Hn' & Hne & Hc').
    destruct (dataframes !! j) as [df'|] eqn:Hj.
    + rewrite (lookup_total_correct _ _ _ (build_column_sets_NoDup _ _ _ _ _ Hnd Hn' Hj)) in Hc'.
      apply elem_of_list_to_set in Hc'. by eapply Hothers.
    + apply lookup_ge_None in Hj. apply lookup_lt_Some in Hn'. lia.
Qed.

(** With distinct names the code agrees with the specification's wording of
    the unique-column list. *)
Lemma unique_at_distinct_spec names dataframes i name df :
  length names = length dataframes → NoDup names →
  names !! i = Some name → dataframes !! i = Some df →
  unique_at (build_column_sets names dataframes) names i name
  = spec_unique_columns dataframes i.
Proof.
  intros Hlen Hnd Hn Hd. unfold spec_unique_columns. rewrite Hd. cbv zeta.
  unfold unique_at. do 2 f_equal. apply set_eq. intros c.
  rewrite <-elem_of_elements, <-(sorted_Permutation (elements _)).
  fold (unique_at (build_column_sets names dataframes) names i name).
  rewrite (elem_of_unique_at_distinct _ _ _ _ _ _ Hlen Hnd Hn Hd).
  rewrite elem_of_difference, elem_of_list_to_set, elem_of_union_list.
  split; intros [Hc Hothers]; (split; [done|]).
  - intros (X & HX & HcX).
    apply list_elem_of_fmap in HX as ([j df'] & -> & Hin).
    apply list_elem_of_filter in Hin as [Hne Hin]. apply elem_of_enumerate in Hin.
    simpl in *. apply elem_of_list_to_set in HcX. by eapply Hothers.
  - intros j df' Hne Hj Hc'. apply Hothers.
    exists (list_to_set (columns df')). split; [|by apply elem_of_list_to_set].
    apply list_elem_of_fmap. exists (j, df'). split; [done|].
    apply list_elem_of_filter. split; [done|]. by apply elem_of_enumerate.
Qed.

(** What a call with distinct names returns. *)
Lemma compare_distinct dataframes names print_results out :
  valid_call dataframes names → distinct_names names →
  ∃ res out',
    compare_dataframe_columns dataframes names print_results out = (Ok res, out') ∧
    keys res = effective_names dataframes names ∧
    length res = length dataframes ∧
    ∀ i df, dataframes !! i = Some df →
      ∃ name l,
        effective_names dataframes names !! i = Some name ∧
        res !! i = Some (name, l) ∧
        dict_get res name = Some l ∧
        StronglySorted str_lt l ∧
        ∀ c, c ∈ l ↔
             c ∈ columns df ∧
             ∀ j df', j ≠ i → dataframes !! j = Some df' → c ∉ columns df'.
Proof.
  intros Hvalid Hdistinct.
  pose proof (effective_names_length _ _ Hvalid) as Hlen.
  pose proof (effective_names_NoDup dataframes _ Hdistinct) as Hnd.
  set (ns := effective_names dataframes names) in *.
  eexists _, _. split; [by apply compare_valid|]. fold ns.
  rewrite unique_columns_of_NoDup by (done || lia).
  assert (keys (assignments ns dataframes) = ns) as Hkeys
    by (apply assignments_keys; lia).
  split_and!; [done|by apply length_assignments|].
  intros i df Hd.
  destruct (ns !! i) as [name|] eqn:Hn; last first.
  { apply lookup_ge_None in Hn. apply lookup_lt_Some in Hd. lia. }
  exists name, (unique_at (build_column_sets ns dataframes) ns i name).
  pose proof (lookup_assignments _ _ _ _ _ Hn Hd) as Hi.
  split_and!; [done|done| | |].
  - eapply dict_get_lookup; [|done]. by rewrite Hkeys.
  - apply unique_at_strictly_ascending.
  - intros c. by apply elem_of_unique_at_distinct.
Qed.

(** With distinct names every entry is the unique-column list in the
    specification's wording. *)
Lemma compare_distinct_spec dataframes names print_results out :
  valid_call dataframes names → distinct_names names →
  ∃ res out',
    compare_dataframe_columns dataframes names print_results out = (Ok res, out') ∧
    ∀ i name, effective_names dataframes names !! i = Some name →
      dict_get res name = Some (spec_unique_columns dataframes i).
Proof.
  intros Hvalid Hdistinct.
  pose proof (effective_names_length _ _ Hvalid) as Hlen.
  pose proof (effective_names_NoDup dataframes _ Hdistinct) as Hnd.
  destruct (compare_distinct dataframes names print_results out)
    as (res & out' & Hrun & _ & _ & Hentries); [done..|].
  exists res, out'. split; [done|]. intros i name Hn.
  destruct (dataframes !! i) as [df|] eqn:Hd; last first.
  { apply lookup_ge_None in Hd. apply lookup_lt_Some in Hn. lia. }
  destruct (Hentries i df Hd) as (name' & l & Hn' & Hi & Hget & _).
  assert (name' = name) as -> by congruence.
  rewrite Hget. f_equal.
  rewrite compare_valid in Hrun by done. injection Hrun as <- _.
  rewrite unique_columns_of_NoDup in Hi by (done || lia).
  rewrite (lookup_assignments _ _ _ _ _ Hn Hd) in Hi. injection Hi as <-.
  by apply (unique_at_distinct_spec _ _ _ _ df).
Qed.

(** ** Properties of the specification *)

(** C1.  A call with at least two dataframes and distinct effective names
    (explicit names of matching length without repetition, or synthesized
    names) returns a dictionary with one entry per dataframe, its keys the
    effective names in input order; the entry of dataframe [i] is the
    strictly ascending list of exactly the column names that occur in
    dataframe [i] and in no other dataframe.  In particular the dataframes
    with columns A B C, A D and A B E, named Sales, Marketing and HR,
    yield C under Sales, D under Marketing and E under HR. *)
Theorem compare_unique_columns :
  (∀ dataframes names print_results,
     valid_call dataframes names → distinct_names names →
     ∃ res out,
       run (compare_dataframe_columns dataframes names print_results) = (Ok res, out) ∧
       keys res = effective_names dataframes names ∧
       length res = length dataframes ∧
       ∀ i df, dataframes !! i = Some df →
         ∃ name l,
           effective_names dataframes names !! i = Some name ∧
           res !! i = Some (name, l) ∧
           dict_get res name = Some l ∧
           StronglySorted str_lt l ∧
           ∀ c, c ∈ l ↔
                c ∈ columns df ∧
                ∀ j df', j ≠ i → dataframes !! j = Some df' → c ∉ columns df') ∧
  (∀ print_results,
     (run (compare_dataframe_columns scenario_dfs (Some scenario_names) print_results)).1
     = Ok [("Sales", ["C"]); ("Marketing", ["D"]); ("HR", ["E"])]).
Proof.
  split.
  - intros dataframes names print_results Hvalid Hdistinct.
    by apply compare_distinct.
  - by intros [].
Qed.

Lemma scenario_valid : valid_call scenario_dfs (Some scenario_names).
Proof. split; simpl; lia. Qed.

Lemma scenario_distinct : distinct_names (Some scenario_names).
Proof. unfold distinct_names, scenario_names. compute_done. Qed.

Lemma compare_unique_columns_witness :
  ∃ res out,
    run (compare_dataframe_columns scenario_dfs (Some scenario_names) true) = (Ok res, out) ∧
    keys res = scenario_names ∧
    length res = 3 ∧
    ∀ i df, scenario_dfs !! i = Some df →
      ∃ name l,
        scenario_names !! i = Some name ∧
        res !! i = Some (name, l) ∧
        dict_get res name = Some l ∧
        StronglySorted str_lt l ∧
        ∀ c, c ∈ l ↔
             c ∈ columns df ∧
             ∀ j df', j ≠ i → scenario_dfs !! j = Some df' → c ∉ columns df'.
Proof.
  exact (proj1 compare_unique_columns scenario_dfs (Some scenario_names) true
           scenario_valid scenario_distinct).
Defined.

(** C2.  A call with fewer than two dataframes raises [ValueError]; a call
    whose explicit names differ in number from the dataframes raises
    [ValueError]; every other call returns.  Both errors come before
    anything is written to standard output, also when the report is asked
    for. *)
Theorem compare_errors dataframes names print_results :
  (length dataframes < 2 →
     run (compare_dataframe_columns dataframes names print_results)
     = (Raise (ValueError "Please provide at least 2 dataframes to compare"),
        EmptyString)) ∧
  (∀ ns, names = Some ns → length ns ≠ length dataframes →
     ∃ msg,
       run (compare_dataframe_columns dataframes names print_results)
       = (Raise (ValueError msg), EmptyString) ∧
       (2 ≤ length dataframes →
          msg = "Number of names (" +:+ pretty (length ns)
                  +:+ ") must match number of dataframes ("
                  +:+ pretty (length dataframes) +:+ ")")) ∧
  (valid_call dataframes names →
     ∃ res out,
       run (compare_dataframe_columns dataframes names print_results) = (Ok res, out)).
Proof.
  split_and!.
  - intros Hlen. unfold run, compare_dataframe_columns. by rewrite decide_True.
  - intros ns -> Hne. unfold run, compare_dataframe_columns.
    destruct (decide (length dataframes < 2)) as [Hlt|Hge].
    + eexists. split; [done|]. lia.
    + rewrite decide_True by done. eexists. split; [done|]. done.
  - intros Hvalid. eexists _, _. by apply compare_valid.
Qed.

Lemma compare_errors_witness :
  run (compare_dataframe_columns [df_of ["A"]] None true)
  = (Raise (ValueError "Please provide at least 2 dataframes to compare"), EmptyString) ∧
  (∃ msg,
     run (compare_dataframe_columns [df_of ["A"]; df_of ["B"]] (Some ["x"]) true)
     = (Raise (ValueError msg), EmptyString) ∧
     (2 ≤ 2 → msg = "Number of names (1) must match number of dataframes (2)")) ∧
  (∃ res out,
     run (compare_dataframe_columns scenario_dfs (Some scenario_names) true) = (Ok res, out)).
Proof.
  split_and!.
  - apply (proj1 (compare_errors [df_of ["A"]] None true)). simpl. lia.
  - apply (proj1 (proj2 (compare_errors [df_of ["A"]; df_of ["B"]] (Some ["x"]) true))
             ["x"]); [reflexivity|simpl; lia].
  - apply (proj2 (proj2 (compare_errors scenario_dfs (Some scenario_names) true))).
    exact scenario_valid.
Defined.

(** C9.  A call that passes the two checks (at least two dataframes; names
    omitted or as many as the dataframes) returns a result and raises
    nothing: no key is ever missing from [column_sets]. *)
Theorem compare_total dataframes names print_results :
  valid_call dataframes names →
  ∃ res out,
    run (compare_dataframe_columns dataframes names print_results) = (Ok res, out).
Proof. intros Hvalid. eexists _, _. by apply compare_valid. Qed.

Lemma compare_total_witness :
  ∃ res out,
    run (compare_dataframe_columns [df_of ["A"; "B"]; df_of ["A"; "B"]] None true)
    = (Ok res, out).
Proof.
  apply (compare_total [df_of ["A"; "B"]; df_of ["A"; "B"]] None true).
  split; simpl; [lia|exact I].
Defined.

(** C10.  When fewer than two dataframes come with explicit names whose
    number differs from theirs, the error raised is the one about the
    number of dataframes: that check comes first. *)
Theorem dataframe_count_checked_first dataframes ns print_results :
  length dataframes < 2 → length ns ≠ length dataframes →
  run (compare_dataframe_columns dataframes (Some ns) print_results)
  = (Raise (ValueError "Please provide at least 2 dataframes to compare"),
     EmptyString).
Proof.
  intros Hlen _. unfold run, compare_dataframe_columns. by rewrite decide_True.
Qed.

Lemma dataframe_count_checked_first_witness :
  run (compare_dataframe_columns [df_of ["A"]] (Some ["x"; "y"]) true)
  = (Raise (ValueError "Please provide at least 2 dataframes to compare"),
     EmptyString).
Proof.
  apply (dataframe_count_checked_first [df_of ["A"]] ["x"; "y"] true); simpl; lia.
Defined.

(** C6.  A call with at least two dataframes and no names returns a
    dictionary whose keys are, in order, df1, df2, ..., dfn: the key at
    position [i], counted from zero, is df followed by the decimal writing
    of [i + 1]. *)
Theorem default_names_are_keys dataframes print_results :
  2 ≤ length dataframes →
  ∃ res out,
    run (compare_dataframe_columns dataframes None print_results) = (Ok res, out) ∧
    effective_names dataframes None = keys res ∧
    length (keys res) = length dataframes ∧
    ∀ i, i < length dataframes → keys res !! i = Some ("df" +:+ pretty (i + 1)).
Proof.
  intros Hlen.
  destruct (compare_distinct dataframes None print_results EmptyString)
    as (res & out & Hrun & Hkeys & Hlength & _); [done..|].
  exists res, out. split_and!; [done|done| |].
  - rewrite Hkeys. apply default_names_length.
  - intros i Hi. rewrite Hkeys. by apply default_names_lookup.
Qed.

Lemma default_names_are_keys_witness :
  ∃ res out,
    run (compare_dataframe_columns scenario_dfs None false) = (Ok res, out) ∧
    effective_names scenario_dfs None = keys res ∧
    length (keys res) = 3 ∧
    ∀ i, i < 3 → keys res !! i = Some ("df" +:+ pretty (i + 1)).
Proof.
  apply (default_names_are_keys scenario_dfs false). simpl. lia.
Defined.

Example default_names_12 :
  default_names 12
  = ["df1"; "df2"; "df3"; "df4"; "df5"; "df6"; "df7"; "df8"; "df9"; "df10"; "df11"; "df12"].
Proof. reflexivity. Qed.

Example scenario_default_names print_results :
  (run (compare_dataframe_columns scenario_dfs None print_results)).1
  = Ok [("df1", ["C"]); ("df2", ["D"]); ("df3", ["E"])].
Proof. by destruct print_results. Qed.

(** C7.  The dictionary a call returns, or the error it raises, is the same
    with and without the report; a valid call returns a dictionary in both
    cases; without the report nothing is written to standard output; and
    writing the report never raises. *)
Theorem report_is_a_side_effect dataframes names :
  (run (compare_dataframe_columns dataframes names true)).1
  = (run (compare_dataframe_columns dataframes names false)).1 ∧
  (valid_call dataframes names →
     ∃ res, (run (compare_dataframe_columns dataframes names true)).1 = Ok res ∧
            (run (compare_dataframe_columns dataframes names false)).1 = Ok res) ∧
  (∀ out, (compare_dataframe_columns dataframes names false out).2 = out) ∧
  (∀ unique_columns out, ∃ out', print_report unique_columns out = (Ok (), out')).
Proof.
  split_and!.
  - unfold run. destruct (decide (valid_call dataframes names)) as [Hvalid|Hinvalid].
    + by rewrite !compare_valid by done.
    + destruct (compare_invalid _ _ Hinvalid) as [e He]. by rewrite !He.
  - intros Hvalid. eexists. unfold run. by rewrite !compare_valid by done.
  - intros out. destruct (decide (valid_call dataframes names)) as [Hvalid|Hinvalid].
    + by rewrite compare_valid by done.
    + destruct (compare_invalid _ _ Hinvalid) as [e He]. by rewrite He.
  - intros unique_columns out. eexists. apply print_report_run.
Qed.

Lemma report_is_a_side_effect_witness :
  ∃ res,
    (run (compare_dataframe_columns scenario_dfs (Some scenario_names) true)).1 = Ok res ∧
    (run (compare_dataframe_columns scenario_dfs (Some scenario_names) false)).1 = Ok res.
Proof.
  apply (proj1 (proj2 (report_is_a_side_effect scenario_dfs (Some scenario_names)))).
  exact scenario_valid.
Defined.



Example scenario_report :
  (run (compare_dataframe_columns scenario_dfs (Some scenario_names) true)).2
  = unlines
      ["============================================================";
       "DATAFRAME COLUMN COMPARISON RESULTS";
       "============================================================";
       EmptyString;
       "Sales has ['C'] which are not present in other dataframes";
       "Marketing has ['D'] which are not present in other dataframes";
       "HR has ['E'] which are not present in other dataframes";
       "============================================================"].
Proof. reflexivity. Qed.

Example identical_columns_report :
  run (compare_dataframe_columns [df_of ["A"; "B"]; df_of ["A"; "B"]] None true)
  = (Ok [("df1", []); ("df2", [])],
     unlines
       ["============================================================";
        "DATAFRAME COLUMN COMPARISON RESULTS";
        "============================================================";
        EmptyString;
        "df1 has no unique columns";
        "df2 has no unique columns";
        "============================================================"]).
Proof. reflexivity. Qed.

(** C5.  On a valid call every list of the returned dictionary is strictly
    ascending in the order of strings and has no repeated entry, whatever
    repetitions the columns of a dataframe had. *)
Theorem unique_lists_strictly_ascending dataframes names print_results :
  valid_call dataframes names →
  ∃ res out,
    run (compare_dataframe_columns dataframes names print_results) = (Ok res, out) ∧
    ∀ name l, (name, l) ∈ res → StronglySorted str_lt l ∧ NoDup l.
Proof.
  intros Hvalid. eexists _, _. split; [by apply compare_valid|].
  intros name l Hin. unfold unique_columns_of in Hin.
  apply elem_of_dict_of_assignments in Hin as [Hin|Hin]; [by apply elem_of_nil in Hin|].
  apply elem_of_assignments in Hin as (i & _ & ->).
  split; [apply unique_at_strictly_ascending|apply unique_at_NoDup].
Qed.

Lemma unique_lists_strictly_ascending_witness :
  ∃ res out,
    run (compare_dataframe_columns
           [df_of ["B"; "A"; "B"]; df_of ["C"; "A"; "C"; "A"]] None false) = (Ok res, out) ∧
    ∀ name l, (name, l) ∈ res → StronglySorted str_lt l ∧ NoDup l.
Proof.
  apply (unique_lists_strictly_ascending
           [df_of ["B"; "A"; "B"]; df_of ["C"; "A"; "C"; "A"]] None false).
  split; simpl; [lia|exact I].
Defined.

Example repeated_columns_collapse :
  run (compare_dataframe_columns
         [df_of ["Z"; "B"; "A"; "B"; "Z"]; df_of ["C"; "A"; "C"]] None false)
  = (Ok [("df1", ["B"; "Z"]); ("df2", ["C"])], EmptyString).
Proof. reflexivity. Qed.

(** C4.  On a valid call with distinct names the lists decompose the
    columns: the list of dataframe [i] lies within the columns of
    dataframe [i] and shares nothing with the columns of any other
    dataframe, and a column name is in some list or in at least two
    dataframes exactly when it is a column of some dataframe. *)
Theorem unique_lists_decompose dataframes names print_results :
  valid_call dataframes names → distinct_names names →
  ∃ res out,
    run (compare_dataframe_columns dataframes names print_results) = (Ok res, out) ∧
    length res = length dataframes ∧
    (∀ i name l df, res !! i = Some (name, l) → dataframes !! i = Some df →
       (∀ c, c ∈ l → c ∈ columns df) ∧
       (∀ j df', j ≠ i → dataframes !! j = Some df' → ∀ c, c ∈ l → c ∉ columns df')) ∧
    (∀ c,
       ((∃ name l, (name, l) ∈ res ∧ c ∈ l) ∨
        (∃ i j dfi dfj, i ≠ j ∧ dataframes !! i = Some dfi ∧ dataframes !! j = Some dfj ∧
                        c ∈ columns dfi ∧ c ∈ columns dfj)) ↔
       (∃ df, df ∈ dataframes ∧ c ∈ columns df)).
Proof.
  intros Hvalid Hdistinct.
  destruct (compare_distinct dataframes names print_results EmptyString)
    as (res & out & Hrun & Hkeys & Hlength & Hentries); [done..|].
  exists res, out. split_and!; [done|done| |].
  - intros i name l df Hi Hd.
    destruct (Hentries i df Hd) as (name' & l' & _ & Hi' & _ & _ & Hl).
    rewrite Hi in Hi'. injection Hi' as <- <-.
    split.
    + intros c Hc. by apply Hl in Hc as [? _].
    + intros j df' Hne Hj c Hc. apply Hl in Hc as [_ Hc]. by eapply Hc.
  - intros c. split.
    + intros [(name & l & Hin & Hc)|(i & j & dfi & dfj & _ & Hi & _ & Hc & _)].
      * apply list_elem_of_lookup in Hin as [i Hi].
        destruct (dataframes !! i) as [df|] eqn:Hd; last first.
        { apply lookup_ge_None in Hd. apply lookup_lt_Some in Hi. lia. }
        destruct (Hentries i df Hd) as (name' & l' & _ & Hi' & _ & _ & Hl).
        rewrite Hi in Hi'. injection Hi' as <- <-.
        destruct (proj1 (Hl c) Hc) as [Hcd _].
        exists df. split; [by eapply list_elem_of_lookup_2|done].
      * exists dfi. split; [by eapply list_elem_of_lookup_2|done].
    + intros (df & [i Hd]%list_elem_of_lookup & Hc).
      destruct (Hentries i df Hd) as (name & l & _ & Hi & _ & _ & Hl).
      destruct (decide (Exists (λ p : nat * DataFrame, p.1 ≠ i ∧ c ∈ columns p.2)
                          (enumerate dataframes))) as [Hex|Hnex].
      * right. apply Exists_exists in Hex as ([j df'] & Hin & Hne & Hc').
        apply elem_of_enumerate in Hin. simpl in *.
        exists i, j, df, df'. by split_and!.
      * left. exists name, l. split; [by eapply list_elem_of_lookup_2|].
        apply Hl. split; [done|]. intros j df' Hne Hj Hc'. apply Hnex.
        apply Exists_exists. exists (j, df'). split; [by apply elem_of_enumerate|done].
Qed.

Lemma unique_lists_decompose_witness :
  ∃ res out,
    run (compare_dataframe_columns scenario_dfs (Some scenario_names) false) = (Ok res, out) ∧
    length res = 3 ∧
    (∀ i name l df, res !! i = Some (name, l) → scenario_dfs !! i = Some df →
       (∀ c, c ∈ l → c ∈ columns df) ∧
       (∀ j df', j ≠ i → scenario_dfs !! j = Some df' → ∀ c, c ∈ l → c ∉ columns df')) ∧
    (∀ c,
       ((∃ name l, (name, l) ∈ res ∧ c ∈ l) ∨
        (∃ i j dfi dfj, i ≠ j ∧ scenario_dfs !! i = Some dfi ∧ scenario_dfs !! j = Some dfj ∧
                        c ∈ columns dfi ∧ c ∈ columns dfj)) ↔
       (∃ df, df ∈ scenario_dfs ∧ c ∈ columns df)).
Proof.
  exact (unique_lists_decompose scenario_dfs (Some scenario_names) false
           scenario_valid scenario_distinct).
Defined.

(** C3.  The entry stored under a repeated name should be the
    unique-column list of the last dataframe supplied under that name, and
    the code misses it: [column_sets] is keyed by name while the inner
    loop leaves out a position, so under a repeated name the set read as
    the columns of the current dataframe is also among the sets of the
    other dataframes.  With two dataframes of columns A and B both named
    x, the call passes both checks, the unique-column list of the last
    dataframe is B, and the entry the code stores under x is empty. *)
Theorem repeated_name_loses_unique_columns :
  2 ≤ length [df_of ["A"]; df_of ["B"]] ∧
  length ["x"; "x"] = length [df_of ["A"]; df_of ["B"]] ∧
  ¬ NoDup ["x"; "x"] ∧
  run (compare_dataframe_columns [df_of ["A"]; df_of ["B"]] (Some ["x"; "x"]) false)
  = (Ok [("x", [])], EmptyString) ∧
  spec_unique_columns [df_of ["A"]; df_of ["B"]] 1 = ["B"] ∧
  ¬ last_writer_claim [df_of ["A"]; df_of ["B"]] ["x"; "x"] false.
Proof.
  split_and!; [simpl; lia|done| |done|done|].
  - intros Hnd. apply NoDup_cons in Hnd as [Hx _]. apply Hx. left.
  - intros (res & out & Hrun & Hlast).
    assert (res = [("x", [])]) as -> by (by injection Hrun as <- _).
    specialize (Hlast "x" 1).
    assert (dict_get [("x", @nil string)] "x" = Some (spec_unique_columns [df_of ["A"]; df_of ["B"]] 1))
      as Habs; [|discriminate Habs].
    apply Hlast.
    + exists 0, 1. by split_and!.
    + split; [done|]. intros j Hj. by rewrite lookup_ge_None_2 by (simpl; lia).
Qed.

(** How far the defect reaches.  A call with at least two dataframes and
    as many names, repeated or not, returns a dictionary with one entry
    per distinct name, in order of first occurrence, the entry under a
    name being the list the loop assigned at the last position of that
    name; under a repeated name that list is empty whatever the columns of
    the dataframes, so every column found only in the last dataframe
    supplied under a repeated name is lost. *)
Lemma repeated_names_collide dataframes ns print_results :
  2 ≤ length dataframes → length ns = length dataframes →
  ∃ res out,
    run (compare_dataframe_columns dataframes (Some ns) print_results) = (Ok res, out) ∧
    keys res = first_occurrences [] ns ∧
    NoDup (keys res) ∧
    (∀ name, name ∈ keys res ↔ name ∈ ns) ∧
    (∀ name i, last_position ns name i →
       dict_get res name
       = Some (unique_at (build_column_sets ns dataframes) ns i name)) ∧
    (∀ name, repeated ns name → dict_get res name = Some []).
Proof.
  intros Hlen Hns.
  assert (valid_call dataframes (Some ns)) as Hvalid by done.
  eexists _, _. split; [by apply compare_valid|]. simpl.
  assert (keys (unique_columns_of ns dataframes) = first_occurrences [] ns) as Hkeys.
  { unfold unique_columns_of.
    rewrite keys_dict_of_assignments, assignments_keys by lia. done. }
  assert (∀ name, name ∈ keys (unique_columns_of ns dataframes) ↔ name ∈ ns) as Hin.
  { intros name. rewrite Hkeys, elem_of_first_occurrences, elem_of_nil. tauto. }
  split_and!; [done| |done| |].
  - rewrite Hkeys. apply first_occurrences_NoDup, NoDup_nil_2.
  - intros name i [Hi Hlast].
    destruct (dataframes !! i) as [df|] eqn:Hd; last first.
    { apply lookup_ge_None in Hd. apply lookup_lt_Some in Hi. lia. }
    pose proof (lookup_assignments _ _ _ _ _ Hi Hd) as Ha.
    unfold unique_columns_of.
    rewrite <-(take_drop_middle _ _ _ Ha).
    apply dict_get_assignments_last.
    rewrite fmap_drop, assignments_keys by lia.
    intros [j Hj]%list_elem_of_lookup. rewrite lookup_drop in Hj.
    by apply (Hlast (S i + j)); [lia|].
  - intros name (i1 & i2 & Hne & Hi1 & Hi2).
    destruct (dict_get_is_Some (unique_columns_of ns dataframes) name) as [l Hl].
    { apply Hin. by eapply list_elem_of_lookup_2. }
    rewrite Hl. f_equal.
    apply dict_get_elem_of, elem_of_dict_of_assignments in Hl as [Hl|Hl];
      [by apply elem_of_nil in Hl|].
    apply elem_of_assignments in Hl as (i & Hi & ->).
    destruct (decide (i1 = i)) as [->|Hne1].
    + by apply (unique_at_repeated _ _ _ i2).
    + by apply (unique_at_repeated _ _ _ i1).
Qed.

Lemma repeated_names_collide_witness :
  ∃ res out,
    run (compare_dataframe_columns [df_of ["A"]; df_of ["B"]] (Some ["x"; "x"]) true)
    = (Ok res, out) ∧
    keys res = first_occurrences [] ["x"; "x"] ∧
    NoDup (keys res) ∧
    (∀ name, name ∈ keys res ↔ name ∈ ["x"; "x"]) ∧
    (∀ name i, last_position ["x"; "x"] name i →
       dict_get res name
       = Some (unique_at (build_column_sets ["x"; "x"] [df_of ["A"]; df_of ["B"]])
                 ["x"; "x"] i name)) ∧
    (∀ name, repeated ["x"; "x"] name → dict_get res name = Some []).
Proof.
  apply (repeated_names_collide [df_of ["A"]; df_of ["B"]] ["x"; "x"] true);
    [simpl; lia|reflexivity].
Defined.

Example repeated_names_example :
  run (compare_dataframe_columns
         [df_of ["A"]; df_of ["B"]; df_of ["A"; "C"]] (Some ["x"; "x"; "y"]) false)
  = (Ok [("x", []); ("y", ["A"; "C"])], EmptyString).
Proof. reflexivity. Qed.

(** ** Further properties of the function *)

(** Every name of a list has a last position. *)
Lemma last_position_exists (ns : list string) name :
  name ∈ ns → ∃ i, last_position ns name i.
Proof.
  induction ns as [|n ns IH]; [by intros ?%elem_of_nil|].
  intros Hin. destruct (decide (name ∈ ns)) as [Hns|Hns].
  - destruct (IH Hns) as (i & Hi & Hlast). exists (S i). split; [done|].
    intros [|j] Hj; [lia|]. simpl. apply Hlast. lia.
  - apply elem_of_cons in Hin as [->|?]; [|done].
    exists 0. split; [done|]. intros [|j] Hj; [lia|]. simpl.
    intros Hn. apply Hns. by eapply list_elem_of_lookup_2.
Qed.

(** The set kept under a name is that of the dataframe at its last
    position. *)
Lemma column_set_of_name (ns : list string) dataframes name :
  length ns = length dataframes → name ∈ ns →
  ∃ i df,
    last_position ns name i ∧ dataframes !! i = Some df ∧
    build_column_sets ns dataframes !!! name = list_to_set (columns df).
Proof.
  intros Hlen Hin. destruct (last_position_exists ns name Hin) as (i & Hi & Hlast).
  destruct (dataframes !! i) as [df|] eqn:Hd; last first.
  { apply lookup_ge_None in Hd. apply lookup_lt_Some in Hi. lia. }
  exists i, df. split_and!; [done|done|].
  apply lookup_total_correct. by eapply build_column_sets_last.
Qed.

(** Every entry of the result of a valid call was assigned at some position
    of its name. *)
Lemma elem_of_unique_columns_of ns dataframes name l :
  (name, l) ∈ unique_columns_of ns dataframes →
  ∃ i, ns !! i = Some name ∧
       l = unique_at (build_column_sets ns dataframes) ns i name.
Proof.
  unfold unique_columns_of.
  intros [Hin|Hin]%elem_of_dict_of_assignments; [by apply elem_of_nil in Hin|].
  by apply elem_of_assignments.
Qed.

(** X4.  On a valid call every column name in the list stored under a name
    is a column of the dataframe supplied last under that name. *)
Theorem entries_come_from_last_dataframe dataframes names print_results :
  valid_call dataframes names →
  ∃ res out,
    run (compare_dataframe_columns dataframes names print_results) = (Ok res, out) ∧
    ∀ name l, (name, l) ∈ res →
      ∃ i df,
        last_position (effective_names dataframes names) name i ∧
        dataframes !! i = Some df ∧
        ∀ c, c ∈ l → c ∈ columns df.
Proof.
  intros Hvalid. pose proof (effective_names_length _ _ Hvalid) as Hlen.
  eexists _, _. split; [by apply compare_valid|].
  intros name l (i & Hi & ->)%elem_of_unique_columns_of.
  destruct (column_set_of_name _ dataframes name Hlen) as (k & df & Hlast & Hd & Hcs).
  { by eapply list_elem_of_lookup_2. }
  exists k, df. split_and!; [done..|].
  intros c [Hc _]%elem_of_unique_at. rewrite Hcs in Hc.
  by apply elem_of_list_to_set in Hc.
Qed.

Lemma entries_come_from_last_dataframe_witness :
  ∃ res out,
    run (compare_dataframe_columns
           [df_of ["A"]; df_of ["B"]; df_of ["A"; "C"]] (Some ["x"; "x"; "y"]) false)
    = (Ok res, out) ∧
    ∀ name l, (name, l) ∈ res →
      ∃ i df,
        last_position ["x"; "x"; "y"] name i ∧
        [df_of ["A"]; df_of ["B"]; df_of ["A"; "C"]] !! i = Some df ∧
        ∀ c, c ∈ l → c ∈ columns df.
Proof.
  apply (entries_come_from_last_dataframe
           [df_of ["A"]; df_of ["B"]; df_of ["A"; "C"]] (Some ["x"; "x"; "y"]) false).
  split; simpl; [lia|reflexivity].
Defined.

(** X3.  On a valid call the lists stored under two different names share
    no column name. *)
Theorem entries_are_disjoint dataframes names print_results :
  valid_call dataframes names →
  ∃ res out,
    run (compare_dataframe_columns dataframes names print_results) = (Ok res, out) ∧
    ∀ name1 l1 name2 l2,
      (name1, l1) ∈ res → (name2, l2) ∈ res → name1 ≠ name2 →
      ∀ c, c ∈ l1 → c ∉ l2.
Proof.
  intros Hvalid. eexists _, _. split; [by apply compare_valid|].
  intros name1 l1 name2 l2 (i1 & Hi1 & ->)%elem_of_unique_columns_of
    (i2 & Hi2 & ->)%elem_of_unique_columns_of Hne c
    [Hc1 _]%elem_of_unique_at [_ Hc2]%elem_of_unique_at.
  apply Hc2. apply elem_of_other_cols_at. exists i1, name1.
  split_and!; [done| |done]. intros ->. congruence.
Qed.

Lemma entries_are_disjoint_witness :
  ∃ res out,
    run (compare_dataframe_columns scenario_dfs (Some scenario_names) false) = (Ok res, out) ∧
    ∀ name1 l1 name2 l2,
      (name1, l1) ∈ res → (name2, l2) ∈ res → name1 ≠ name2 →
      ∀ c, c ∈ l1 → c ∉ l2.
Proof.
  apply (entries_are_disjoint scenario_dfs (Some scenario_names) false).
  exact scenario_valid.
Defined.

(** At a position of a valid call some other position exists. *)
Lemma other_position_exists (ns : list string) i :
  2 ≤ length ns → ∃ j name, ns !! j = Some name ∧ j ≠ i.
Proof.
  intros Hlen. destruct i as [|i].
  - destruct (lookup_lt_is_Some_2 ns 1) as [name Hn]; [lia|]. by exists 1, name.
  - destruct (lookup_lt_is_Some_2 ns 0) as [name Hn]; [lia|]. by exists 0, name.
Qed.

(** X7.  On a valid call a column name that every dataframe has is in no
    list of the result. *)
Theorem common_column_never_listed dataframes names print_results c :
  valid_call dataframes names →
  (∀ df, df ∈ dataframes → c ∈ columns df) →
  ∃ res out,
    run (compare_dataframe_columns dataframes names print_results) = (Ok res, out) ∧
    ∀ name l, (name, l) ∈ res → c ∉ l.
Proof.
  intros Hvalid Hall. pose proof (effective_names_length _ _ Hvalid) as Hlen.
  eexists _, _. split; [by apply compare_valid|].
  intros name l (i & Hi & ->)%elem_of_unique_columns_of [_ Hc]%elem_of_unique_at.
  apply Hc. apply elem_of_other_cols_at.
  destruct (other_position_exists (effective_names dataframes names) i)
    as (j & name' & Hj & Hne); [destruct Hvalid; lia|].
  exists j, name'. split_and!; [done..|].
  destruct (column_set_of_name _ dataframes name' Hlen) as (k & df & _ & Hd & ->).
  { by eapply list_elem_of_lookup_2. }
  apply elem_of_list_to_set, Hall. by eapply list_elem_of_lookup_2.
Qed.

Lemma common_column_never_listed_witness :
  ∃ res out,
    run (compare_dataframe_columns scenario_dfs None true) = (Ok res, out) ∧
    ∀ name l, (name, l) ∈ res → "A" ∉ l.
Proof.
  apply (common_column_never_listed scenario_dfs None true "A").
  - split; simpl; [lia|exact I].
  - intros df Hdf. unfold scenario_dfs in Hdf.
    repeat (apply elem_of_cons in Hdf as [->|Hdf]; [simpl; left|]).
    by apply elem_of_nil in Hdf.
Defined.

(** X6.  On a valid call whose dataframes all have the same column names,
    in whatever order and however often repeated, every list of the result
    is empty. *)
Theorem same_columns_no_unique dataframes names print_results :
  valid_call dataframes names →
  (∀ df df' c, df ∈ dataframes → df' ∈ dataframes →
               c ∈ columns df → c ∈ columns df') →
  ∃ res out,
    run (compare_dataframe_columns dataframes names print_results) = (Ok res, out) ∧
    ∀ name l, (name, l) ∈ res → l = [].
Proof.
  intros Hvalid Hsame. pose proof (effective_names_length _ _ Hvalid) as Hlen.
  eexists _, _. split; [by apply compare_valid|].
  intros name l (i & Hi & ->)%elem_of_unique_columns_of.
  apply elem_of_nil_inv. intros c [Hc Hothers]%elem_of_unique_at.
  apply Hothers. apply elem_of_other_cols_at.
  destruct (other_position_exists (effective_names dataframes names) i)
    as (j & name' & Hj & Hne); [destruct Hvalid; lia|].
  exists j, name'. split_and!; [done..|].
  destruct (column_set_of_name _ dataframes name Hlen) as (k & df & _ & Hd & Hcs).
  { by eapply list_elem_of_lookup_2. }
  destruct (column_set_of_name _ dataframes name' Hlen) as (k' & df' & _ & Hd' & ->).
  { by eapply list_elem_of_lookup_2. }
  rewrite Hcs in Hc. apply elem_of_list_to_set in Hc.
  apply elem_of_list_to_set.
  apply (Hsame df df' c); [by eapply list_elem_of_lookup_2..|done].
Qed.

Lemma same_columns_no_unique_witness :
  ∃ res out,
    run (compare_dataframe_columns
           [df_of ["A"; "B"]; df_of ["B"; "A"; "B"]] None true) = (Ok res, out) ∧
    ∀ name l, (name, l) ∈ res → l = [].
Proof.
  apply (same_columns_no_unique [df_of ["A"; "B"]; df_of ["B"; "A"; "B"]] None true).
  - split; simpl; [lia|exact I].
  - intros df df' c Hdf Hdf' Hc.
    repeat (apply elem_of_cons in Hdf as [->|Hdf]);
      [| |by apply elem_of_nil in Hdf];
      (repeat (apply elem_of_cons in Hdf' as [->|Hdf']);
       [| |by apply elem_of_nil in Hdf']);
      simpl in *;
      repeat (apply elem_of_cons in Hc as [->|Hc]);
      try (by apply elem_of_nil in Hc);
      rewrite !elem_of_cons; auto.
Defined.

(** X5.  On a valid call with explicit names, the list stored under a name
    that stands at one position only holds the columns of its dataframe
    that no dataframe at the last position of another name has: a
    dataframe followed by another one under the same name takes no part
    in the comparison. *)
Theorem shadowed_dataframes_are_ignored dataframes ns print_results i name df :
  2 ≤ length dataframes → length ns = length dataframes →
  ns !! i = Some name → dataframes !! i = Some df →
  (∀ j, ns !! j = Some name → j = i) →
  ∃ res out l,
    run (compare_dataframe_columns dataframes (Some ns) print_results) = (Ok res, out) ∧
    dict_get res name = Some l ∧
    ∀ c, c ∈ l ↔
         c ∈ columns df ∧
         ∀ k name' df', k ≠ i → last_position ns name' k →
                        dataframes !! k = Some df' → c ∉ columns df'.
Proof.
  intros Hlen Hns Hi Hd Honce.
  assert (valid_call dataframes (Some ns)) as Hvalid by done.
  assert (last_position ns name i) as Hlast.
  { split; [done|]. intros j Hij Hj. apply Honce in Hj. lia. }
  eexists _, _, (unique_at (build_column_sets ns dataframes) ns i name).
  split_and!; [by apply compare_valid| |].
  - simpl. pose proof (lookup_assignments _ _ _ _ _ Hi Hd) as Ha.
    unfold unique_columns_of. rewrite <-(take_drop_middle _ _ _ Ha).
    apply dict_get_assignments_last.
    rewrite fmap_drop, assignments_keys by lia.
    intros [j Hj]%list_elem_of_lookup. rewrite lookup_drop in Hj.
    apply Honce in Hj. lia.
  - intros c. rewrite elem_of_unique_at, elem_of_other_cols_at.
    rewrite (lookup_total_correct _ _ _
               (build_column_sets_last _ _ _ _ _ Hi Hd (proj2 Hlast))).
    rewrite elem_of_list_to_set. split.
    + intros [Hc Hothers]. split; [done|].
      intros k name' df' Hne [Hk Hklast] Hdk Hc'. apply Hothers.
      exists k, name'. split_and!; [done..|].
      rewrite (lookup_total_correct _ _ _
                 (build_column_sets_last _ _ _ _ _ Hk Hdk Hklast)).
      by apply elem_of_list_to_set.
    + intros [Hc Hothers]. split; [done|].
      intros (j & name' & Hj & Hne & Hc').
      destruct (column_set_of_name ns dataframes name' Hns)
        as (k & df' & Hklast & Hdk & Hcs); [by eapply list_elem_of_lookup_2|].
      rewrite Hcs in Hc'. apply elem_of_list_to_set in Hc'.
      apply (Hothers k name' df'); [|done..].
      intros ->. destruct Hklast as [Hk _].
      assert (name' = name) as -> by congruence. by apply Honce in Hj.
Qed.

Lemma shadowed_dataframes_are_ignored_witness :
  ∃ res out l,
    run (compare_dataframe_columns
           [df_of ["A"]; df_of ["B"]; df_of ["A"; "C"]] (Some ["x"; "x"; "y"]) false)
    = (Ok res, out) ∧
    dict_get res "y" = Some l ∧
    ∀ c, c ∈ l ↔
         c ∈ columns (df_of ["A"; "C"]) ∧
         ∀ k name' df', k ≠ 2 → last_position ["x"; "x"; "y"] name' k →
                        [df_of ["A"]; df_of ["B"]; df_of ["A"; "C"]] !! k = Some df' →
                        c ∉ columns df'.
Proof.
  apply (shadowed_dataframes_are_ignored
           [df_of ["A"]; df_of ["B"]; df_of ["A"; "C"]] ["x"; "x"; "y"] false 2 "y"
           (df_of ["A"; "C"])); [simpl; lia|reflexivity|reflexivity|reflexivity|].
  intros [|[|[|j]]] Hj; simpl in Hj; (discriminate || reflexivity).
Defined.

(** *** Dataframes with the same column names *)

Lemma build_column_sets_ext ns dataframes dataframes' :
  Forall2 (λ df df', ∀ c, c ∈ columns df ↔ c ∈ columns df') dataframes dataframes' →
  build_column_sets ns dataframes = build_column_sets ns dataframes'.
Proof.
  unfold build_column_sets. generalize (∅ : gmap string (gset string)).
  intros m Hall. revert ns m.
  induction Hall as [|df df' dfs dfs' Hdf Hall IH]; intros ns m.
  - by destruct ns.
  - destruct ns as [|n ns]; [done|]. csimpl.
    assert (list_to_set (columns df) =@{gset string} list_to_set (columns df')) as ->.
    { apply set_eq. intros c. by rewrite !elem_of_list_to_set. }
    apply IH.
Qed.

Lemma assignments_ext ns dataframes dataframes' :
  length dataframes = length dataframes' →
  build_column_sets ns dataframes = build_column_sets ns dataframes' →
  assignments ns dataframes = assignments ns dataframes'.
Proof.
  intros Hlen Hcs. unfold assignments. rewrite Hcs. apply list_eq. intros i.
  rewrite !list_lookup_fmap, !lookup_enumerate, !lookup_zip_with.
  destruct (ns !! i) as [name|]; simpl; [|done].
  destruct (dataframes !! i) as [df|] eqn:Hd;
    destruct (dataframes' !! i) as [df'|] eqn:Hd'; simpl; [done| | |done].
  - apply lookup_lt_Some in Hd. apply lookup_ge_None in Hd'. lia.
  - apply lookup_lt_Some in Hd'. apply lookup_ge_None in Hd. lia.
Qed.

(** X1.  Only the set of column names of each dataframe matters: two calls
    whose dataframes have, position by position, the same column names,
    in whatever order and however often repeated, return the same result,
    raise the same error and print the same text. *)
Theorem column_order_is_irrelevant dataframes dataframes' names print_results :
  Forall2 (λ df df', ∀ c, c ∈ columns df ↔ c ∈ columns df') dataframes dataframes' →
  run (compare_dataframe_columns dataframes names print_results)
  = run (compare_dataframe_columns dataframes' names print_results).
Proof.
  intros Hall. pose proof (Forall2_length _ _ _ Hall) as Hlen. unfold run.
  destruct (decide (valid_call dataframes names)) as [Hvalid|Hinvalid].
  - assert (valid_call dataframes' names) as Hvalid'.
    { destruct Hvalid as [H2 Hn]. split; [lia|]. destruct names; [lia|done]. }
    rewrite !compare_valid by done.
    assert (effective_names dataframes' names = effective_names dataframes names) as ->.
    { destruct names; simpl; [done|]. by rewrite Hlen. }
    unfold unique_columns_of.
    by rewrite (assignments_ext _ dataframes dataframes')
      by (done || by apply build_column_sets_ext).
  - unfold compare_dataframe_columns. rewrite <-Hlen.
    destruct (decide (length dataframes < 2)) as [Hlt|Hge]; [done|].
    destruct names as [ns|].
    + destruct (decide (length ns ≠ length dataframes)) as [Hne|Heq]; [done|].
      exfalso. apply Hinvalid. split; [lia|]. by apply dec_stable.
    + exfalso. apply Hinvalid. split; [lia|done].
Qed.

Lemma column_order_is_irrelevant_witness :
  run (compare_dataframe_columns
         [df_of ["A"; "B"; "C"]; df_of ["A"; "D"]] (Some ["l"; "r"]) true)
  = run (compare_dataframe_columns
           [df_of ["C"; "B"; "A"; "C"]; df_of ["D"; "A"; "D"]] (Some ["l"; "r"]) true).
Proof.
  apply (column_order_is_irrelevant
           [df_of ["A"; "B"; "C"]; df_of ["A"; "D"]]
           [df_of ["C"; "B"; "A"; "C"]; df_of ["D"; "A"; "D"]] (Some ["l"; "r"]) true).
  constructor; [|constructor; [|constructor]];
    intros c; simpl; rewrite !elem_of_cons, !elem_of_nil; tauto.
Defined.

(** *** Names as labels *)

(** X9.  Distinct names only label the result: two valid calls on the same
    dataframes, each with distinct names (explicit or synthesized), return
    the same lists in the same order. *)
Theorem names_only_label dataframes names names' print_results print_results' :
  valid_call dataframes names → distinct_names names →
  valid_call dataframes names' → distinct_names names' →
  ∃ res res' out out',
    run (compare_dataframe_columns dataframes names print_results) = (Ok res, out) ∧
    run (compare_dataframe_columns dataframes names' print_results') = (Ok res', out') ∧
    res.*2 = res'.*2.
Proof.
  intros Hvalid Hdistinct Hvalid' Hdistinct'.
  eexists _, _, _, _. split_and!; [by apply compare_valid..|].
  assert (∀ names, valid_call dataframes names → distinct_names names →
            ∀ i, (unique_columns_of (effective_names dataframes names) dataframes).*2 !! i
                 = (λ _, spec_unique_columns dataframes i) <$> dataframes !! i) as Hvalues.
  { intros nms Hv Hd i.
    pose proof (effective_names_length _ _ Hv) as Hlen.
    pose proof (effective_names_NoDup dataframes _ Hd) as Hnd.
    rewrite unique_columns_of_NoDup by (done || lia).
    rewrite list_lookup_fmap.
    destruct (dataframes !! i) as [df|] eqn:Hdf; simpl.
    - destruct (effective_names dataframes nms !! i) as [name|] eqn:Hn; last first.
      { apply lookup_ge_None in Hn. apply lookup_lt_Some in Hdf. lia. }
      rewrite (lookup_assignments _ _ _ _ _ Hn Hdf). simpl. f_equal.
      by apply (unique_at_distinct_spec _ _ _ _ df).
    - rewrite lookup_ge_None_2; [done|].
      rewrite length_assignments by done. by apply lookup_ge_None. }
  apply list_eq. intros i. by rewrite !Hvalues.
Qed.

Lemma names_only_label_witness :
  ∃ res res' out out',
    run (compare_dataframe_columns scenario_dfs (Some scenario_names) true) = (Ok res, out) ∧
    run (compare_dataframe_columns scenario_dfs None false) = (Ok res', out') ∧
    res.*2 = res'.*2.
Proof.
  apply (names_only_label scenario_dfs (Some scenario_names) None true false).
  - exact scenario_valid.
  - exact scenario_distinct.
  - split; simpl; [lia|exact I].
  - exact I.
Defined.

(** *** One more dataframe *)

(** X8.  Comparing against one more dataframe, under a fresh name, only
    removes from each list the columns the new dataframe has: with
    distinct names, the list of every earlier dataframe keeps its position
    and name and holds exactly its former column names that are not
    columns of the new dataframe. *)
Theorem one_more_dataframe dataframes ns name_new df_new print_results :
  2 ≤ length dataframes → length ns = length dataframes →
  NoDup (ns ++ [name_new]) →
  ∃ res res' out out',
    run (compare_dataframe_columns dataframes (Some ns) print_results) = (Ok res, out) ∧
    run (compare_dataframe_columns (dataframes ++ [df_new]) (Some (ns ++ [name_new]))
           print_results) = (Ok res', out') ∧
    length res' = S (length res) ∧
    ∀ i name l, res !! i = Some (name, l) →
      ∃ l', res' !! i = Some (name, l') ∧
            ∀ c, c ∈ l' ↔ c ∈ l ∧ c ∉ columns df_new.
Proof.
  intros Hlen Hns Hnd.
  assert (NoDup ns) as Hnd0 by (by apply NoDup_app in Hnd as [? _]).
  destruct (compare_distinct dataframes (Some ns) print_results EmptyString)
    as (res & out & Hrun & _ & Hlength & Hentries); [done..|].
  destruct (compare_distinct (dataframes ++ [df_new]) (Some (ns ++ [name_new]))
              print_results EmptyString)
    as (res' & out' & Hrun' & _ & Hlength' & Hentries').
  { split; rewrite !length_app; simpl; lia. }
  { done. }
  exists res, res', out, out'. split_and!; [done..| |].
  { rewrite Hlength', Hlength, length_app. simpl. lia. }
  intros i name l Hi.
  destruct (dataframes !! i) as [df|] eqn:Hd; last first.
  { apply lookup_ge_None in Hd. apply lookup_lt_Some in Hi. lia. }
  destruct (Hentries i df Hd) as (name0 & l0 & Hn0 & Hi0 & _ & _ & Hl0).
  assert (name0 = name ∧ l0 = l) as [-> ->] by (split; congruence).
  destruct (Hentries' i df) as (name1 & l1 & Hn1 & Hi1 & _ & _ & Hl1).
  { by apply lookup_app_l_Some. }
  simpl in Hn0, Hn1. rewrite (lookup_app_l_Some _ _ _ _ Hn0) in Hn1.
  injection Hn1 as <-.
  exists l1. split; [done|]. intros c. rewrite Hl1, Hl0. split.
  - intros [Hc Hothers]. split; [split; [done|]|].
    + intros j df' Hne Hj. apply (Hothers j); [done|]. by apply lookup_app_l_Some.
    + apply (Hothers (length dataframes)).
      * apply lookup_lt_Some in Hd. lia.
      * by rewrite list_lookup_middle.
  - intros [[Hc Hothers] Hnew]. split; [done|].
    intros j df' Hne Hj. apply lookup_app_Some in Hj as [Hj|[_ Hj]].
    + by eapply Hothers.
    + apply list_lookup_singleton_Some in Hj as [_ <-]. done.
Qed.

Lemma one_more_dataframe_witness :
  ∃ res res' out out',
    run (compare_dataframe_columns
           [df_of ["A"; "B"; "C"]; df_of ["A"; "D"]] (Some ["l"; "r"]) false) = (Ok res, out) ∧
    run (compare_dataframe_columns
           ([df_of ["A"; "B"; "C"]; df_of ["A"; "D"]] ++ [df_of ["B"; "E"]])
           (Some (["l"; "r"] ++ ["n"])) false) = (Ok res', out') ∧
    length res' = S (length res) ∧
    ∀ i name l, res !! i = Some (name, l) →
      ∃ l', res' !! i = Some (name, l') ∧
            ∀ c, c ∈ l' ↔ c ∈ l ∧ c ∉ columns (df_of ["B"; "E"]).
Proof.
  apply (one_more_dataframe
           [df_of ["A"; "B"; "C"]; df_of ["A"; "D"]] ["l"; "r"] "n" (df_of ["B"; "E"]) false);
    [simpl; lia|reflexivity|].
  compute_done.
Defined.

Example one_more_dataframe_example :
  (run (compare_dataframe_columns
          [df_of ["A"; "B"; "C"]; df_of ["A"; "D"]] (Some ["l"; "r"]) false)).1
  = Ok [("l", ["B"; "C"]); ("r", ["D"])] ∧
  (run (compare_dataframe_columns
          [df_of ["A"; "B"; "C"]; df_of ["A"; "D"]; df_of ["B"; "E"]]
          (Some ["l"; "r"; "n"]) false)).1
  = Ok [("l", ["C"]); ("r", ["D"]); ("n", ["E"])].
Proof. done. Qed.

(** *** The order of the arguments *)

Lemma dict_get_None {V} (d : dict V) k : k ∉ keys d → dict_get d k = None.
Proof.
  unfold keys. induction d as [|[k0 v0] d IH]; csimpl; [done|].
  intros [Hne Hnin]%not_elem_of_cons. rewrite decide_False by done. by apply IH.
Qed.

Lemma unique_at_ext cs ns i name cs' ns' i' name' :
  (∀ c, c ∈ unique_at cs ns i name ↔ c ∈ unique_at cs' ns' i' name') →
  unique_at cs ns i name = unique_at cs' ns' i' name'.
Proof.
  intros Hiff. unfold unique_at. do 2 f_equal. apply set_eq. intros c.
  specialize (Hiff c). rewrite !elem_of_unique_at in Hiff.
  by rewrite !elem_of_difference.
Qed.

(** With distinct names, the list of a named dataframe in terms of the
    named dataframes of the call, whatever their order. *)
Lemma elem_of_unique_at_named (named : list (string * DataFrame)) i name df c :
  NoDup named.*1 → named !! i = Some (name, df) →
  c ∈ unique_at (build_column_sets named.*1 named.*2) named.*1 i name ↔
  c ∈ columns df ∧
  ∀ name' df', (name', df') ∈ named → name' ≠ name → c ∉ columns df'.
Proof.
  intros Hnd Hi.
  assert (named.*1 !! i = Some name) as Hn by (by rewrite list_lookup_fmap, Hi).
  assert (named.*2 !! i = Some df) as Hd by (by rewrite list_lookup_fmap, Hi).
  rewrite (elem_of_unique_at_distinct _ _ _ _ df) by (by rewrite ?length_fmap).
  split; intros [Hc Hothers]; (split; [done|]).
  - intros name' df' [j Hj]%list_elem_of_lookup Hne.
    apply (Hothers j); [by intros ->; rewrite Hi in Hj; injection Hj as -> _|].
    by rewrite list_lookup_fmap, Hj.
  - intros j df' Hne Hj. rewrite list_lookup_fmap in Hj.
    destruct (named !! j) as [[name' df'']|] eqn:Hnj; simpl in Hj; [|done].
    injection Hj as ->. apply (Hothers name' df'); [by eapply list_elem_of_lookup_2|].
    intros ->. apply Hne. eapply NoDup_lookup; [done| |done].
    by rewrite list_lookup_fmap, Hnj.
Qed.

(** X2.  With distinct names the list stored under a name does not depend
    on the order in which the named dataframes are passed: only the order
    of the keys follows the order of the arguments. *)
Theorem argument_order_is_irrelevant (named named' : list (string * DataFrame))
    print_results :
  2 ≤ length named → NoDup named.*1 → named ≡ₚ named' →
  ∃ res res' out out',
    run (compare_dataframe_columns named.*2 (Some named.*1) print_results)
    = (Ok res, out) ∧
    run (compare_dataframe_columns named'.*2 (Some named'.*1) print_results)
    = (Ok res', out') ∧
    keys res ≡ₚ keys res' ∧
    ∀ name, dict_get res name = dict_get res' name.
Proof.
  intros Hlen Hnd Hperm.
  assert (NoDup named'.*1) as Hnd' by (by rewrite <-Hperm).
  assert (valid_call named.*2 (Some named.*1)) as Hvalid
    by (split; rewrite !length_fmap; done).
  assert (valid_call named'.*2 (Some named'.*1)) as Hvalid'
    by (split; rewrite !length_fmap, <-?Hperm; done).
  eexists _, _, _, _. split_and!; [by apply compare_valid..| |]; simpl.
  - rewrite !unique_columns_of_NoDup by (rewrite ?length_fmap; done).
    unfold keys. rewrite !assignments_keys by (by rewrite !length_fmap).
    by rewrite Hperm.
  - intros name.
    rewrite !unique_columns_of_NoDup by (rewrite ?length_fmap; done).
    destruct (decide (name ∈ named.*1)) as [Hin|Hnin].
    + apply list_elem_of_fmap in Hin as ([name0 df] & -> & Hin). simpl.
      assert ((name0, df) ∈ named') as Hin' by (by rewrite <-Hperm).
      apply list_elem_of_lookup in Hin as [i Hi].
      apply list_elem_of_lookup in Hin' as [i' Hi'].
      assert (∀ (l : list (string * DataFrame)) k,
                NoDup l.*1 → l !! k = Some (name0, df) →
                dict_get (assignments l.*1 l.*2) name0
                = Some (unique_at (build_column_sets l.*1 l.*2) l.*1 k name0)) as Hget.
      { intros l k Hl Hk. apply (dict_get_lookup _ k).
        - unfold keys. by rewrite assignments_keys by (by rewrite !length_fmap).
        - apply lookup_assignments with df; by rewrite list_lookup_fmap, Hk. }
      rewrite (Hget named i), (Hget named' i') by done. f_equal.
      apply unique_at_ext. intros c.
      rewrite (elem_of_unique_at_named named i name0 df) by done.
      rewrite (elem_of_unique_at_named named' i' name0 df) by done.
      split; intros [Hc Hothers]; (split; [done|]); intros name' df' Hin Hne;
        apply (Hothers name' df'); [by rewrite Hperm|done|by rewrite <-Hperm|done].
    + rewrite !dict_get_None; [done| |].
      * unfold keys. rewrite assignments_keys by (by rewrite !length_fmap).
        by rewrite <-Hperm.
      * unfold keys. by rewrite assignments_keys by (by rewrite !length_fmap).
Qed.

Lemma argument_order_is_irrelevant_witness :
  ∃ res res' out out',
    run (compare_dataframe_columns
           [("l", df_of ["A"; "B"; "C"]); ("r", df_of ["A"; "D"])].*2
           (Some [("l", df_of ["A"; "B"; "C"]); ("r", df_of ["A"; "D"])].*1) false)
    = (Ok res, out) ∧
    run (compare_dataframe_columns
           [("r", df_of ["A"; "D"]); ("l", df_of ["A"; "B"; "C"])].*2
           (Some [("r", df_of ["A"; "D"]); ("l", df_of ["A"; "B"; "C"])].*1) false)
    = (Ok res', out') ∧
    keys res ≡ₚ keys res' ∧
    ∀ name, dict_get res name = dict_get res' name.
Proof.
  apply (argument_order_is_irrelevant
           [("l", df_of ["A"; "B"; "C"]); ("r", df_of ["A"; "D"])]
           [("r", df_of ["A"; "D"]); ("l", df_of ["A"; "B"; "C"])] false).
  - simpl. lia.
  - compute_done.
  - apply perm_swap.
Defined.
